(** * TileStache.MPSandwich: the multi-process Sandwich provider

    A shallow embedding of [src/TileStache/MPSandwich.py] (Python 2) and
    the properties of its fan-out / fan-in orchestration:
    [Provider.draw_stack] plans one [multiprocessing.Process] per layer
    name it does not have yet, starts them all, pulls one item per process
    off a shared queue, merges each item into the [tiles] dictionary and
    hands the dictionary to [Sandwich.Provider.draw_stack].

    Python dictionaries are stdpp [gmap]s, Python lists are lists, raised
    exceptions are values of [exn], and the mutable objects of one call are
    the fields of a [State] record that is threaded through the phases.
    The [logging.debug] calls are left out. The child processes are seen
    through the queue only: what each of them puts on it, in the order in
    which they get to run. *)

From Stdlib Require Import ZArith Ascii DecimalString.
From stdpp Require Import gmap strings pretty list fin_maps.

#[local] Set Warnings "-clear-no-such-hyp".

(** ** Data *)

(** The exceptions that can leave the code: [Core.KnownUnknown] with its
    message, the [KeyError] of a failed dictionary index, and whatever an
    external renderer raises. *)
Inductive exn : Type :=
| KnownUnknown (msg : string)
| KeyError (key : string)
| RenderError (msg : string).

(** [coord]: a tile coordinate with its [zoom], [column] and [row]. *)
Record Coordinate : Type := { row : Z; column : Z; zoom : Z }.

(** One entry of [self.stack] is a dictionary; the code reads the keys
    ['zoom'], ['src'], ['mask'] and ['color'], whose values are strings. *)
Abbreviation directive := (gmap string string).

(** Python truth value of [layer.get(k, None)]: [None] and the empty
    string are false. *)
Definition truthy (v : option string) : bool :=
  match v with
  | Some s => negb (String.eqb s "")
  | None => false
  end.

(** How a call of [draw_stack] ends: it returns the composited image, it
    raises, or it never comes back from a [tileQueue.get()]. *)
Inductive Outcome (Image : Type) : Type :=
| Returned (img : Image)
| Raised (e : exn)
| Blocked.
Arguments Returned {Image} img.
Arguments Raised {Image} e.
Arguments Blocked {Image}.

(** [self.config]: only [config.layers] is used, a dictionary from layer
    names to layer objects. *)
Record Configuration (Layer : Type) : Type := { layers : gmap string Layer }.
Arguments layers {Layer} _.

(** [self]: the provider with its [stack], its [config] and the [dim] of
    its own layer ([self.layer.dim]). *)
Record Provider (Layer : Type) : Type := {
  stack : list directive;
  config : Configuration Layer;
  dim : Z
}.
Arguments stack {Layer} _.
Arguments config {Layer} _.
Arguments dim {Layer} _.

(** A [multiprocessing.Process(name=..., target=..., args=...)]: the target
    is one of the two module-level workers, with its arguments (the queue
    argument is the one shared [tileQueue]). *)
Inductive Target (Layer : Type) : Type :=
| layer_bitmap_target (source : string) (layer : Layer) (coord : Coordinate)
| local_bitmap_target (source : string) (config : Configuration Layer)
                      (coord : Coordinate) (dim : Z).
Arguments layer_bitmap_target {Layer} source layer coord.
Arguments local_bitmap_target {Layer} source config coord dim.

Record Process (Layer : Type) : Type := {
  name : string;
  target : Target Layer
}.
Arguments name {Layer} _.
Arguments target {Layer} _.

(** The objects one call of [draw_stack] works on. [tiles] is the caller's
    dictionary, updated in place; [started] and [joined] list the processes
    on which [start()] and [join()] have been called; [handoff] is the
    dictionary passed to [Sandwich.Provider.draw_stack], if that call was
    reached. *)
Record State (Image Layer : Type) : Type := {
  tiles : gmap string Image;
  stackLayers : list string;
  procs : list (Process Layer);
  started : list (Process Layer);
  tileQueue : list (gmap string Image);
  joined : list (Process Layer);
  handoff : option (gmap string Image)
}.
Arguments tiles {Image Layer} _.
Arguments stackLayers {Image Layer} _.
Arguments procs {Image Layer} _.
Arguments started {Image Layer} _.
Arguments tileQueue {Image Layer} _.
Arguments joined {Image Layer} _.
Arguments handoff {Image Layer} _.

(** ** Code outside this module

    What [draw_stack] calls but does not define, as an interface:
    - [Sandwich.in_zoom(coord, layer['zoom'])], which answers or raises;
    - [Sandwich.local_bitmap(source, config, coord, dim)] and
      [Sandwich.layer_bitmap(layer, coord)], the renderers, which return an
      image or raise (a renderer that never returns is, for the queue, the
      same as one that raises: nothing is put);
    - [Sandwich.Provider.draw_stack(self, coord, tiles)], the compositor;
    - Python's [repr], used in the error message;
    - [sched], the order in which the started processes get to run their
      target, which is the operating system's choice: every started process
      runs, once. *)
Class Outside (Image Layer : Type) : Type := {
  in_zoom : Coordinate -> string -> exn + bool;
  Sandwich_local_bitmap :
    string -> Configuration Layer -> Coordinate -> Z -> exn + Image;
  Sandwich_layer_bitmap : Layer -> Coordinate -> exn + Image;
  Sandwich_draw_stack :
    Provider Layer -> Coordinate -> gmap string Image -> exn + Image;
  repr : string -> string;
  sched : list (Process Layer) -> list (Process Layer);
  sched_runs_each_once : forall ps, sched ps ≡ₚ ps
}.

Section MPSandwich.

Context {Image Layer : Type} `{!Outside Image Layer}.

Definition append_stackLayers (n : string) (st : State Image Layer)
    : State Image Layer :=
  {| tiles := tiles st; stackLayers := stackLayers st ++ [n];
     procs := procs st; started := started st; tileQueue := tileQueue st;
     joined := joined st; handoff := handoff st |}.

Definition append_procs (p : Process Layer) (st : State Image Layer)
    : State Image Layer :=
  {| tiles := tiles st; stackLayers := stackLayers st;
     procs := procs st ++ [p]; started := started st;
     tileQueue := tileQueue st; joined := joined st;
     handoff := handoff st |}.

(** ** The workers *)

(** [def local_bitmap(source, config, coord, dim, q)]: the argument of
    [q.put] is evaluated first, so a renderer that raises puts nothing
    and the exception leaves the function. *)
Definition local_bitmap (source : string) (cfg : Configuration Layer)
    (coord : Coordinate) (d : Z) (q : list (gmap string Image))
    : list (gmap string Image) * (exn + unit) :=
  match Sandwich_local_bitmap source cfg coord d with
  | inr img => (q ++ [{[ source := img ]}], inr tt)
  | inl e => (q, inl e)
  end.

(** [def layer_bitmap(source, layer, coord, q)]. *)
Definition layer_bitmap (source : string) (layer : Layer)
    (coord : Coordinate) (q : list (gmap string Image))
    : list (gmap string Image) * (exn + unit) :=
  match Sandwich_layer_bitmap layer coord with
  | inr img => (q ++ [{[ source := img ]}], inr tt)
  | inl e => (q, inl e)
  end.

(** What a started process does: call its target on its arguments. *)
Definition run (p : Process Layer) (q : list (gmap string Image))
    : list (gmap string Image) * (exn + unit) :=
  match target p with
  | layer_bitmap_target source layer coord =>
      layer_bitmap source layer coord q
  | local_bitmap_target source cfg coord d =>
      local_bitmap source cfg coord d q
  end.

(** The children run one after the other in the order [sched] picks; an
    exception in a child ends that child and is seen by nobody. What the
    parent observes is the content of the queue. *)
Definition run_workers (ps : list (Process Layer))
    (q : list (gmap string Image)) : list (gmap string Image) :=
  foldl (fun q p => (run p q).1) q ps.

(** ** Planning: the loop over [self.stack] *)

(** ['zoom' in layer and not Sandwich.in_zoom(coord, layer['zoom'])]. *)
Definition zoom_skips (coord : Coordinate) (layer : directive)
    : exn + bool :=
  match layer !! "zoom" with
  | None => inr false
  | Some z =>
      match in_zoom coord z with
      | inl e => inl e
      | inr b => inr (negb b)
      end
  end.

(** The message of the [KnownUnknown] raised for src, color and mask
    given together. *)
Definition triple_message (source_name color_name mask_name : string)
    : string :=
  "You can't specify src, color and mask together in a Sandwich Layer: "
  +:+ repr source_name +:+ ", " +:+ repr color_name +:+ ", "
  +:+ repr mask_name.

(** [if source_name and source_name not in stackLayers: ...] *)
Definition plan_source (self : Provider Layer) (coord : Coordinate)
    (source_name : option string) (st : State Image Layer)
    : State Image Layer :=
  match source_name with
  | Some s =>
      if truthy source_name && negb (bool_decide (s ∈ stackLayers st))
      then
        let st1 := append_stackLayers s st in
        match layers (config self) !! s with
        | Some l =>
            append_procs
              {| name := s; target := layer_bitmap_target s l coord |} st1
        | None =>
            append_procs
              {| name := s;
                 target := local_bitmap_target s (config self) coord
                                               (dim self) |} st1
        end
      else st
  | None => st
  end.

(** [if mask_name and mask_name not in stackLayers: ...]; the name is
    appended to [stackLayers] before [self.config.layers[mask_name]] is
    evaluated, which raises [KeyError] for a name that is not a
    configured layer. *)
Definition plan_mask (self : Provider Layer) (coord : Coordinate)
    (mask_name : option string) (st : State Image Layer)
    : State Image Layer * option exn :=
  match mask_name with
  | Some m =>
      if truthy mask_name && negb (bool_decide (m ∈ stackLayers st))
      then
        let st1 := append_stackLayers m st in
        match layers (config self) !! m with
        | Some l =>
            (append_procs
               {| name := m; target := layer_bitmap_target m l coord |} st1,
             None)
        | None => (st1, Some (KeyError m))
        end
      else (st, None)
  | None => (st, None)
  end.

(** One iteration of [for layer in self.stack]: the state after it, and
    the exception if it raised. *)
Definition plan_layer (self : Provider Layer) (coord : Coordinate)
    (layer : directive) (st : State Image Layer)
    : State Image Layer * option exn :=
  match zoom_skips coord layer with
  | inl e => (st, Some e)
  | inr true => (st, None)
  | inr false =>
      let source_name := layer !! "src" in
      let mask_name := layer !! "mask" in
      let color_name := layer !! "color" in
      if truthy source_name && truthy color_name && truthy mask_name
      then
        (st, Some (KnownUnknown
                     (triple_message (default "" source_name)
                                     (default "" color_name)
                                     (default "" mask_name))))
      else plan_mask self coord mask_name
             (plan_source self coord source_name st)
  end.

Fixpoint plan (self : Provider Layer) (coord : Coordinate)
    (ls : list directive) (st : State Image Layer)
    : State Image Layer * option exn :=
  match ls with
  | [] => (st, None)
  | layer :: rest =>
      match plan_layer self coord layer st with
      | (st', None) => plan self coord rest st'
      | (st', Some e) => (st', Some e)
      end
  end.

(** ** Starting, collecting, joining *)

(** [for p in procs: p.daemon = False; p.start()], after which the
    children run and fill the queue. *)
Definition start_all (st : State Image Layer) : State Image Layer :=
  {| tiles := tiles st; stackLayers := stackLayers st; procs := procs st;
     started := procs st;
     tileQueue := run_workers (sched (procs st)) (tileQueue st);
     joined := joined st; handoff := handoff st |}.

(** [for i in range(0, numProcs): t = tileQueue.get(); tiles.update(t)]
    on a queue that will receive nothing more. [get()] has no timeout:
    on an empty queue it never returns, which is [None] here. Otherwise
    the result is the rest of the queue. The entries of [t] replace those
    of [tiles] ([dict.update]). *)
Fixpoint collect (n : nat) (q : list (gmap string Image))
    (ts : gmap string Image)
    : gmap string Image * option (list (gmap string Image)) :=
  match n with
  | O => (ts, Some q)
  | S n' =>
      match q with
      | [] => (ts, None)
      | t :: q' => collect n' q' (t ∪ ts)
      end
  end.

(** The state at the entry of [draw_stack]: [stackLayers = tiles.keys()]
    (a new list in Python 2), [procs = []], an empty queue. *)
Definition enter (ts : gmap string Image) : State Image Layer :=
  {| tiles := ts; stackLayers := (map_to_list ts).*1; procs := [];
     started := []; tileQueue := []; joined := []; handoff := None |}.

(** The planning loop of one call. *)
Definition plan_stack (self : Provider Layer) (coord : Coordinate)
    (ts : gmap string Image) : State Image Layer * option exn :=
  plan self coord (stack self) (enter ts).

(** [Provider.draw_stack(self, coord, tiles)]: the final state of the
    call's objects and how the call ends. *)
Definition draw_stack (self : Provider Layer) (coord : Coordinate)
    (ts : gmap string Image) : State Image Layer * Outcome Image :=
  match plan_stack self coord ts with
  | (st, Some e) => (st, Raised e)
  | (st, None) =>
      let numProcs := length (procs st) in
      let st1 := start_all st in
      match collect numProcs (tileQueue st1) (tiles st1) with
      | (ts', None) =>
          ({| tiles := ts'; stackLayers := stackLayers st1;
              procs := procs st1; started := started st1;
              tileQueue := []; joined := []; handoff := None |},
           Blocked)
      | (ts', Some q') =>
          let st2 :=
            {| tiles := ts'; stackLayers := stackLayers st1;
               procs := procs st1; started := started st1;
               tileQueue := q'; joined := procs st1;
               handoff := Some ts' |} in
          match Sandwich_draw_stack self coord ts' with
          | inr img => (st2, Returned img)
          | inl e => (st2, Raised e)
          end
      end
  end.

(** ** Vocabulary of the properties *)

(** The first argument of a target: the name its result is put under. *)
Definition target_source (t : Target Layer) : string :=
  match t with
  | layer_bitmap_target source _ _ => source
  | local_bitmap_target source _ _ _ => source
  end.

(** The render operation a process's target calls. *)
Definition render (p : Process Layer) : exn + Image :=
  match target p with
  | layer_bitmap_target _ layer coord => Sandwich_layer_bitmap layer coord
  | local_bitmap_target source cfg coord d =>
      Sandwich_local_bitmap source cfg coord d
  end.

(** What a process puts on the queue, if anything. *)
Definition report (p : Process Layer) : option (gmap string Image) :=
  match render p with
  | inr img => Some {[ target_source (target p) := img ]}
  | inl _ => None
  end.

(** [layer] names [n] as its source or as its mask. *)
Definition refers (layer : directive) (n : string) : Prop :=
  n ≠ "" ∧ (layer !! "src" = Some n ∨ layer !! "mask" = Some n).

(** [layer] gives src, color and mask together. *)
Definition gives_all_three (layer : directive) : Prop :=
  (truthy (layer !! "src") && truthy (layer !! "color")
   && truthy (layer !! "mask")) = true.

(** The planning loop's invariant, for a call entered with the keys [K]:
    the keys stay in [stackLayers], no two processes have the same name,
    and each process is named after the source it renders, a name that
    is in [stackLayers] and was not among the keys. *)
Definition plan_inv (K : list string) (st : State Image Layer) : Prop :=
  K ⊆ stackLayers st ∧
  NoDup (name <$> procs st) ∧
  ∀ p, p ∈ procs st →
    name p ∈ stackLayers st ∧ (name p ∉ K) ∧
    target_source (target p) = name p.

(** Every name of [stackLayers] is a key or has its process. *)
Definition accounted (K : list string) (st : State Image Layer) : Prop :=
  ∀ n, n ∈ stackLayers st → n ∈ K ∨ n ∈ name <$> procs st.

(** The dictionary after [tiles.update(t)] for each [t] of [q] in turn. *)
Definition merged (ts : gmap string Image) (q : list (gmap string Image))
    : gmap string Image :=
  foldl (fun acc t => t ∪ acc) ts q.

(** Two states with the same caller-visible objects: planning works on
    [stackLayers] and [procs] only. *)
Definition same_objects (st st' : State Image Layer) : Prop :=
  tiles st' = tiles st ∧ started st' = started st ∧
  tileQueue st' = tileQueue st ∧ joined st' = joined st ∧
  handoff st' = handoff st.

(** The target of [p] is the one the source branch picks for the name of
    [p]: the layer worker on the configured layer of that name, or the
    bitmap worker when no layer has that name. *)
Definition follows_config (self : Provider Layer) (coord : Coordinate)
    (p : Process Layer) : Prop :=
  match layers (config self) !! name p with
  | Some l => target p = layer_bitmap_target (name p) l coord
  | None =>
      target p = local_bitmap_target (name p) (config self) coord (dim self)
  end.

(** The name and image a process reports, if its render operation
    returns. *)
Definition result (p : Process Layer) : option (string * Image) :=
  match render p with
  | inr img => Some (target_source (target p), img)
  | inl _ => None
  end.

(** The three ways in which the iteration for [layer] raises [e], in a
    call entered with the cache [ts]: [in_zoom] raises it; it is the
    [KnownUnknown] for src, color and mask given together; it is the
    [KeyError] for a mask name that is no configured layer and not in the
    cache. *)
Definition plan_error_of (self : Provider Layer) (coord : Coordinate)
    (ts : gmap string Image) (layer : directive) (e : exn) : Prop :=
  (∃ z, layer !! "zoom" = Some z ∧ in_zoom coord z = inl e) ∨
  (zoom_skips coord layer = inr false ∧
   ∃ s c m, layer !! "src" = Some s ∧ layer !! "color" = Some c ∧
            layer !! "mask" = Some m ∧ s ≠ "" ∧ c ≠ "" ∧ m ≠ "" ∧
            e = KnownUnknown (triple_message s c m)) ∨
  (zoom_skips coord layer = inr false ∧
   ∃ m, layer !! "mask" = Some m ∧ m ≠ "" ∧
        layers (config self) !! m = None ∧ ts !! m = None ∧
        e = KeyError m).

End MPSandwich.

(** ** A concrete world

    Images and layer objects are strings. The renderers answer with a
    description of what they were asked for, except on the layer object
    ["broken"] and the file ["missing.png"], where they raise; the
    processes complete in the reverse of the order they were started in. *)

(** Cut a zoom range at its first dash. *)
Fixpoint split_dash (s : string) : string * option string :=
  match s with
  | EmptyString => (EmptyString, None)
  | String c rest =>
      if Ascii.eqb c "-"%char then (EmptyString, Some rest)
      else let '(a, b) := split_dash rest in (String c a, b)
  end.

Definition parse_zoom (s : string) : option Z :=
  Z.of_uint <$> NilZero.uint_of_string s.

(** Modelled from the spec: [Sandwich.in_zoom] is not part of this module.
    The zoom range is "either a range or a single number" (["12-18"],
    ["12"]), inclusive; for anything else this one raises. *)
Definition in_zoom_range (coord : Coordinate) (range : string)
    : exn + bool :=
  match split_dash range with
  | (a, None) =>
      match parse_zoom a with
      | Some z => inr (Z.eqb (zoom coord) z)
      | None => inl (KnownUnknown "Bad zoom range in a Sandwich Layer")
      end
  | (a, Some b) =>
      match parse_zoom a, parse_zoom b with
      | Some lo, Some hi =>
          inr (Z.leb lo (zoom coord) && Z.leb (zoom coord) hi)
      | _, _ => inl (KnownUnknown "Bad zoom range in a Sandwich Layer")
      end
  end.

Definition describe_layer (layer : string) (coord : Coordinate)
    : exn + string :=
  if String.eqb layer "broken" then inl (RenderError "renderer failed")
  else inr ("tile of " +:+ layer).

Definition describe_local (source : string) (cfg : Configuration string)
    (coord : Coordinate) (d : Z) : exn + string :=
  if String.eqb source "missing.png" then inl (RenderError "no such file")
  else inr ("bitmap " +:+ source).

(** A compositor that only reports how many images it was handed. *)
Definition describe_stack (self : Provider string) (coord : Coordinate)
    (ts : gmap string string) : exn + string :=
  inr ("composite of " +:+ pretty (size ts)).

Definition quote (s : string) : string := "'" +:+ s +:+ "'".

#[global] Instance sample_world : Outside string string := {|
  in_zoom := in_zoom_range;
  Sandwich_local_bitmap := describe_local;
  Sandwich_layer_bitmap := describe_layer;
  Sandwich_draw_stack := describe_stack;
  repr := quote;
  sched := reverse;
  sched_runs_each_once := reverse_Permutation
|}.

(** The configuration of the module's documentation, with one layer whose
    renderer fails. *)
Definition sample_config : Configuration string :=
  {| layers := {[ "base" := "base"; "halos" := "halos";
                  "outlines" := "outlines"; "streets" := "streets";
                  "hillshading" := "broken" ]} |}.

Definition sample_provider (st : list directive) : Provider string :=
  {| stack := st; config := sample_config; dim := 256 |}.

Definition at_zoom (z : Z) : Coordinate :=
  {| row := 0; column := 0; zoom := z |}.

(** The stack of the module's documentation. *)
Definition docs_stack : list directive :=
  [ {[ "src" := "base" ]};
    {[ "src" := "outlines"; "mask" := "halos" ]};
    {[ "src" := "streets" ]} ].


(** A mask that is no configured layer, ahead of a directive giving src,
    mask and color together. *)
Definition ghost_mask_stack : list directive :=
  [ {[ "mask" := "ghost" ]};
    {[ "src" := "base"; "mask" := "halos"; "color" := "#000" ]} ].

(** A directive giving src, mask and color together, on its own. *)
Definition all_three_stack : list directive :=
  [ {[ "src" := "X"; "mask" := "Y"; "color" := "#000" ]} ].

(** A layer that renders next to one whose renderer fails. *)
Definition hillshaded_stack : list directive :=
  [ {[ "src" := "base" ]}; {[ "src" := "hillshading" ]} ].

(** A bitmap that cannot be read. *)
Definition missing_bitmap_stack : list directive :=
  [ {[ "src" := "missing.png" ]} ].

(** A directive limited to zooms 12 to 18 that gives src, mask and color. *)
Definition zoomed_directive : directive :=
  {[ "src" := "hillshading"; "mask" := "halos"; "color" := "#000";
     "zoom" := "12-18" ]}.

(** One directive with a source and a mask. *)
Definition masked_stack : list directive :=
  [ {[ "src" := "outlines"; "mask" := "halos" ]} ].

Definition seeded_cache : gmap string string :=
  {[ "outlines" := "kept outlines"; "halos" := "kept halos" ]}.

(** The process [draw_stack] creates for the source ["hillshading"]. *)
Definition hillshading_process : Process string :=
  {| name := "hillshading";
     target := layer_bitmap_target "hillshading" "broken" (at_zoom 12) |}.

(** The process [draw_stack] creates for the source ["base"]. *)
Definition base_process : Process string :=
  {| name := "base";
     target := layer_bitmap_target "base" "base" (at_zoom 12) |}.

(** The state after planning [hillshaded_stack] on an empty cache. *)
Definition hillshaded_planned : State string string :=
  (plan (sample_provider hillshaded_stack) (at_zoom 12) hillshaded_stack
        (enter ∅)).1.

(** * Properties *)

Section Properties.

Context {Image Layer : Type} `{!Outside Image Layer}.

Implicit Types (st : State Image Layer) (self : Provider Layer).
Implicit Types (coord : Coordinate) (layer : directive).
Implicit Types (ts : gmap string Image) (q : list (gmap string Image)).
Implicit Types (p : Process Layer) (K : list string).

Lemma truthy_Some (s : string) : truthy (Some s) = true ↔ s ≠ "".
Proof.
  unfold truthy. rewrite negb_true_iff. split.
  - intros E ->. by rewrite String.eqb_refl in E.
  - intros E. by apply String.eqb_neq.
Qed.

Lemma truthy_inv (v : option string) :
  truthy v = true → ∃ s, v = Some s ∧ s ≠ "".
Proof.
  destruct v as [s|]; [|done]. intros E. exists s.
  split; [done|]. by apply truthy_Some.
Qed.

(** A name is planned for when it is set, non-empty and not yet in
    [stackLayers]. *)
Lemma wanted_iff (v : option string) (s : string) (l : list string) :
  v = Some s →
  truthy v && negb (bool_decide (s ∈ l)) = true ↔ s ≠ "" ∧ s ∉ l.
Proof.
  intros ->. rewrite andb_true_iff, truthy_Some, negb_true_iff,
    bool_decide_eq_false. done.
Qed.

(** ** Planning *)

Ltac plan_cases :=
  repeat match goal with
  | |- context [match ?x with _ => _ end] => destruct x eqn:?
  | H : context [match ?x with _ => _ end] |- _ => destruct x eqn:?
  end; simplify_eq/=.

Lemma plan_source_same self coord v st :
  same_objects st (plan_source self coord v st).
Proof. unfold plan_source, same_objects. by plan_cases. Qed.

Lemma plan_mask_same self coord v st :
  same_objects st (plan_mask self coord v st).1.
Proof. unfold plan_mask, same_objects. by plan_cases. Qed.

Lemma same_objects_trans st1 st2 st3 :
  same_objects st1 st2 → same_objects st2 st3 → same_objects st1 st3.
Proof.
  intros (?&?&?&?&?) (?&?&?&?&?). repeat split; congruence.
Qed.

Lemma plan_layer_same self coord layer st :
  same_objects st (plan_layer self coord layer st).1.
Proof.
  unfold plan_layer.
  destruct (zoom_skips coord layer) as [e|[]]; simpl; [done..|].
  case_match; simpl; [done|].
  eapply same_objects_trans;
    [apply plan_source_same | apply plan_mask_same].
Qed.

Lemma plan_same self coord ls st :
  same_objects st (plan self coord ls st).1.
Proof.
  revert st. induction ls as [|layer ls IH]; intros st; simpl; [done|].
  pose proof (plan_layer_same self coord layer st) as Hl.
  destruct (plan_layer self coord layer st) as [st' [e|]]; simpl in *;
    [done|].
  eapply same_objects_trans; [exact Hl | apply IH].
Qed.

Lemma plan_inv_append K st s :
  plan_inv K st → plan_inv K (append_stackLayers s st).
Proof.
  intros (HK & Hnd & Hp). split; [|split]; simpl.
  - set_solver.
  - done.
  - intros p Hin. destruct (Hp p Hin) as (?&?&?).
    split; [set_solver|done].
Qed.

Lemma plan_inv_add K st s (t : Target Layer) :
  plan_inv K st → s ∉ stackLayers st → target_source t = s →
  plan_inv K
    (append_procs {| name := s; target := t |} (append_stackLayers s st)).
Proof.
  intros (HK & Hnd & Hp) Hs Ht. split; [|split]; simpl.
  - set_solver.
  - rewrite fmap_app. apply NoDup_app. split; [done|]. split.
    + intros x Hx. apply list_elem_of_fmap in Hx as (p' & -> & Hin).
      destruct (Hp p' Hin) as (Hl & _ & _). simpl.
      rewrite list_elem_of_singleton. intros E. by rewrite E in Hl.
    + apply NoDup_singleton.
  - intros p. rewrite elem_of_app, list_elem_of_singleton.
    intros [Hin | ->].
    + destruct (Hp p Hin) as (?&?&?). split; [set_solver|done].
    + simpl. split; [set_solver|]. split; [set_solver|done].
Qed.

Lemma accounted_add K st s (t : Target Layer) :
  accounted K st →
  accounted K
    (append_procs {| name := s; target := t |} (append_stackLayers s st)).
Proof.
  intros Ha n. simpl. rewrite fmap_app, !elem_of_app. simpl.
  rewrite !list_elem_of_singleton. intros [Hn | ->]; [|by auto].
  destruct (Ha n Hn); auto.
Qed.

Lemma plan_source_inv K self coord v st :
  plan_inv K st → plan_inv K (plan_source self coord v st).
Proof.
  intros Hinv. unfold plan_source.
  destruct v as [s|]; [|done].
  destruct (truthy _ && _) eqn:Hw; [|done].
  apply (wanted_iff (Some s) s _ eq_refl) in Hw as [_ Hs].
  case_match; by apply plan_inv_add.
Qed.

Lemma plan_mask_inv K self coord v st :
  plan_inv K st → plan_inv K (plan_mask self coord v st).1.
Proof.
  intros Hinv. unfold plan_mask.
  destruct v as [m|]; [|done].
  destruct (truthy _ && _) eqn:Hw; [|done].
  apply (wanted_iff (Some m) m _ eq_refl) in Hw as [_ Hm].
  case_match; simpl; [by apply plan_inv_add | by apply plan_inv_append].
Qed.

Lemma plan_layer_inv K self coord layer st :
  plan_inv K st → plan_inv K (plan_layer self coord layer st).1.
Proof.
  intros Hinv. unfold plan_layer.
  destruct (zoom_skips coord layer) as [e|[]]; simpl; [done..|].
  case_match; simpl; [done|].
  by apply plan_mask_inv, plan_source_inv.
Qed.

Lemma plan_keeps_inv K self coord ls st :
  plan_inv K st → plan_inv K (plan self coord ls st).1.
Proof.
  revert st. induction ls as [|layer ls IH]; intros st Hinv; simpl;
    [done|].
  pose proof (plan_layer_inv K self coord layer st Hinv) as Hl.
  destruct (plan_layer self coord layer st) as [st' [e|]]; simpl in *;
    [done|]. by apply IH.
Qed.

Lemma enter_inv ts : plan_inv (map_to_list ts).*1 (enter (Layer:=Layer) ts).
Proof.
  split; [|split]; simpl; [done | apply NoDup_nil_2 |].
  by intros p Hin%elem_of_nil.
Qed.

Lemma enter_accounted ts :
  accounted (map_to_list ts).*1 (enter (Layer:=Layer) ts).
Proof. intros n Hn. by left. Qed.

Lemma plan_source_accounted K self coord v st :
  accounted K st → accounted K (plan_source self coord v st).
Proof.
  intros Ha. unfold plan_source.
  destruct v as [s|]; [|done]. case_match; [|done].
  case_match; by apply accounted_add.
Qed.

Lemma plan_mask_accounted K self coord v st st' :
  plan_mask self coord v st = (st', None) →
  accounted K st → accounted K st'.
Proof.
  unfold plan_mask. intros E Ha.
  destruct v as [m|]; [|by simplify_eq].
  case_match; [|by simplify_eq].
  case_match; simplify_eq. by apply accounted_add.
Qed.

Lemma plan_layer_accounted K self coord layer st st' :
  plan_layer self coord layer st = (st', None) →
  accounted K st → accounted K st'.
Proof.
  unfold plan_layer. intros E Ha.
  destruct (zoom_skips coord layer) as [e|[]]; simplify_eq; [done|].
  case_match; simplify_eq.
  eapply plan_mask_accounted; [done|]. by apply plan_source_accounted.
Qed.

Lemma plan_accounted K self coord ls st st' :
  plan self coord ls st = (st', None) →
  accounted K st → accounted K st'.
Proof.
  revert st. induction ls as [|layer ls IH]; intros st E Ha; simpl in E.
  - by simplify_eq.
  - destruct (plan_layer self coord layer st) as [st1 [e|]] eqn:El;
      [done|].
    eapply IH; [done|]. by eapply plan_layer_accounted.
Qed.

(** [stackLayers] only grows. *)
Lemma plan_source_mono self coord v st :
  stackLayers st ⊆ stackLayers (plan_source self coord v st).
Proof.
  unfold plan_source. destruct v as [s|]; [|done].
  case_match; [|done]. case_match; simpl; set_solver.
Qed.

Lemma plan_mask_mono self coord v st :
  stackLayers st ⊆ stackLayers (plan_mask self coord v st).1.
Proof.
  unfold plan_mask. destruct v as [m|]; [|done].
  case_match; [|done]. case_match; simpl; set_solver.
Qed.

Lemma plan_layer_mono self coord layer st :
  stackLayers st ⊆ stackLayers (plan_layer self coord layer st).1.
Proof.
  unfold plan_layer.
  destruct (zoom_skips coord layer) as [e|[]]; simpl; [done..|].
  case_match; simpl; [done|].
  etrans; [apply plan_source_mono | apply plan_mask_mono].
Qed.

Lemma plan_mono self coord ls st :
  stackLayers st ⊆ stackLayers (plan self coord ls st).1.
Proof.
  revert st. induction ls as [|layer ls IH]; intros st; simpl; [done|].
  pose proof (plan_layer_mono self coord layer st) as Hl.
  destruct (plan_layer self coord layer st) as [st' [e|]]; simpl in *;
    [done|]. etrans; [exact Hl | apply IH].
Qed.

(** After an iteration that was not skipped and did not raise, the names
    of the directive are in [stackLayers]. *)
Lemma plan_source_lands self coord v s st :
  v = Some s → s ≠ "" → s ∈ stackLayers (plan_source self coord v st).
Proof.
  intros -> Hs.
  destruct (decide (s ∈ stackLayers st)) as [Hin|Hnin].
  - by apply plan_source_mono.
  - unfold plan_source. rewrite (proj2 (wanted_iff (Some s) s _ eq_refl)) by done.
    case_match; simpl; set_solver.
Qed.

Lemma plan_mask_lands self coord v m st :
  v = Some m → m ≠ "" → m ∈ stackLayers (plan_mask self coord v st).1.
Proof.
  intros -> Hm.
  destruct (decide (m ∈ stackLayers st)) as [Hin|Hnin].
  - by apply plan_mask_mono.
  - unfold plan_mask. rewrite (proj2 (wanted_iff (Some m) m _ eq_refl)) by done.
    case_match; simpl; set_solver.
Qed.

Lemma plan_layer_lands self coord layer n st st' :
  plan_layer self coord layer st = (st', None) →
  zoom_skips coord layer = inr false →
  refers layer n → n ∈ stackLayers st'.
Proof.
  unfold plan_layer. intros E Hz [Hn Href]. rewrite Hz in E.
  destruct (truthy _ && _ && _); simplify_eq.
  replace st' with
    (plan_mask self coord (layer !! "mask")
       (plan_source self coord (layer !! "src") st)).1 by by rewrite E.
  destruct Href as [Hsrc | Hmask].
  - apply plan_mask_mono. by apply plan_source_lands.
  - by apply plan_mask_lands.
Qed.

Lemma plan_lands self coord ls layer n st st' :
  plan self coord ls st = (st', None) →
  layer ∈ ls → zoom_skips coord layer = inr false →
  refers layer n → n ∈ stackLayers st'.
Proof.
  revert st. induction ls as [|l ls IH]; intros st E Hin Hz Href.
  - by apply elem_of_nil in Hin.
  - simpl in E.
    destruct (plan_layer self coord l st) as [st1 [e|]] eqn:El; [done|].
    apply elem_of_cons in Hin as [-> | Hin]; [|by eapply IH].
    replace st' with (plan self coord ls st1).1 by by rewrite E.
    apply plan_mono. by eapply plan_layer_lands.
Qed.

(** An iteration whose names are all in [stackLayers] changes nothing. *)
Lemma plan_source_known self coord v st :
  (∀ s, v = Some s → s ≠ "" → s ∈ stackLayers st) →
  plan_source self coord v st = st.
Proof.
  intros Hk. unfold plan_source. destruct v as [s|]; [|done].
  destruct (truthy _ && _) eqn:Hw; [|done].
  apply (wanted_iff (Some s) s _ eq_refl) in Hw as [Hs Hnin].
  destruct Hnin. by apply Hk.
Qed.

Lemma plan_mask_known self coord v st :
  (∀ m, v = Some m → m ≠ "" → m ∈ stackLayers st) →
  plan_mask self coord v st = (st, None).
Proof.
  intros Hk. unfold plan_mask. destruct v as [m|]; [|done].
  destruct (truthy _ && _) eqn:Hw; [|done].
  apply (wanted_iff (Some m) m _ eq_refl) in Hw as [Hm Hnin].
  destruct Hnin. by apply Hk.
Qed.

Lemma plan_layer_known self coord layer st :
  (∀ n, refers layer n → n ∈ stackLayers st) →
  (plan_layer self coord layer st).1 = st.
Proof.
  intros Hk. unfold plan_layer.
  destruct (zoom_skips coord layer) as [e|[]]; simpl; [done..|].
  case_match; simpl; [done|].
  rewrite plan_source_known, plan_mask_known; [done|..];
    intros n E Hn; apply Hk; split; auto.
Qed.

Lemma plan_known self coord ls st :
  (∀ layer n, layer ∈ ls → refers layer n → n ∈ stackLayers st) →
  (plan self coord ls st).1 = st.
Proof.
  induction ls as [|l ls IH]; intros Hk; simpl; [done|].
  pose proof (plan_layer_known self coord l st) as Hl.
  destruct (plan_layer self coord l st) as [st1 [e|]]; simpl in *.
  - apply Hl. intros n. apply Hk. by left.
  - rewrite Hl by (intros n; apply Hk; by left).
    apply IH. intros layer n Hin. apply Hk. by right.
Qed.

Lemma plan_app self coord l1 l2 st :
  plan self coord (l1 ++ l2) st =
  match plan self coord l1 st with
  | (st', None) => plan self coord l2 st'
  | (st', Some e) => (st', Some e)
  end.
Proof.
  revert st. induction l1 as [|l l1 IH]; intros st; simpl.
  - by destruct (plan self coord l2 st) as [? [?|]].
  - destruct (plan_layer self coord l st) as [st1 [e|]]; [done|apply IH].
Qed.

Lemma keys_elem ts n : n ∈ (map_to_list ts).*1 ↔ is_Some (ts !! n).
Proof.
  rewrite list_elem_of_fmap. split.
  - intros ([k v] & -> & Hin). exists v. by apply elem_of_map_to_list.
  - intros [v Hv]. exists (n, v). split; [done|].
    by apply elem_of_map_to_list.
Qed.

(** What [draw_stack] leaves in [procs] and [started] is decided by the
    planning loop. *)
Lemma draw_stack_procs self coord ts :
  procs (draw_stack self coord ts).1 = procs (plan_stack self coord ts).1.
Proof.
  unfold draw_stack.
  destruct (plan_stack self coord ts) as [st [e|]]; simpl; [done|].
  destruct (collect _ _ _) as [ts' [q'|]]; simpl; [|done].
  by destruct (Sandwich_draw_stack self coord ts').
Qed.

Lemma draw_stack_started self coord ts :
  started (draw_stack self coord ts).1 =
  match (plan_stack self coord ts).2 with
  | None => procs (plan_stack self coord ts).1
  | Some _ => []
  end.
Proof.
  unfold draw_stack.
  pose proof (plan_same self coord (stack self) (enter ts)) as (_&Hs&_).
  fold (plan_stack self coord ts) in Hs.
  destruct (plan_stack self coord ts) as [st [e|]]; simpl in *; [done|].
  destruct (collect _ _ _) as [ts' [q'|]]; simpl; [|done].
  by destruct (Sandwich_draw_stack self coord ts').
Qed.

Lemma plan_stack_inv self coord ts :
  plan_inv (map_to_list ts).*1 (plan_stack self coord ts).1.
Proof. apply plan_keeps_inv, enter_inv. Qed.

Lemma filter_name_length (ps : list (Process Layer)) (n : string) :
  NoDup (name <$> ps) →
  length (filter (λ p, name p = n) ps) ≤ 1 ∧
  (n ∈ name <$> ps → length (filter (λ p, name p = n) ps) = 1).
Proof.
  induction ps as [|p ps IH]; simpl.
  - intros _. split; [lia|]. by intros ?%elem_of_nil.
  - rewrite NoDup_cons. intros [Hp Hnd].
    destruct (IH Hnd) as [Hle Heq]. rewrite filter_cons.
    destruct (decide (name p = n)) as [<-|Hne]; simpl.
    + assert (filter (λ p0, name p0 = name p) ps = []) as ->; [|done].
      destruct (filter _ ps) as [|p' l'] eqn:E; [done|].
      assert (p' ∈ filter (λ p0, name p0 = name p) ps) as Hin
        by (rewrite E; left).
      apply list_elem_of_filter in Hin as [En Hin].
      destruct Hp. rewrite <- En. by apply list_elem_of_fmap_2.
    + split; [done|]. rewrite elem_of_cons. intros [E|Hin]; [done|auto].
Qed.

(** C1. However often a layer name is referenced across the stack, as
    src or as mask, no call of [draw_stack] creates more than one process
    of that name, whatever the stack and the cache; and when planning
    completes, a name that a directive in zoom refers to and that the
    cache does not hold has exactly one. *)
Theorem draw_stack_one_process_per_name self coord ts (n : string) :
  length (filter (λ p, name p = n) (procs (draw_stack self coord ts).1))
    ≤ 1 ∧
  ((plan_stack self coord ts).2 = None →
   (∃ layer, layer ∈ stack self ∧ zoom_skips coord layer = inr false ∧
             refers layer n) →
   ts !! n = None →
   length (filter (λ p, name p = n) (procs (draw_stack self coord ts).1))
     = 1).
Proof.
  rewrite draw_stack_procs.
  destruct (plan_stack_inv self coord ts) as (_ & Hnd & _).
  destruct (filter_name_length _ n Hnd) as [Hle Heq].
  split; [done|]. intros Hok (layer & Hin & Hz & Href) Hnone.
  apply Heq. unfold plan_stack in *.
  destruct (plan self coord (stack self) (enter ts)) as [st o] eqn:E.
  simpl in *. subst o.
  pose proof (plan_lands _ _ _ _ _ _ _ E Hin Hz Href) as Hl.
  destruct (plan_accounted _ _ _ _ _ _ E (enter_accounted ts) n Hl)
    as [HK|Hp]; [|done].
  apply keys_elem in HK as [v Hv]. congruence.
Qed.

(** C4. When every name the stack refers to is already a key of the
    cache, no process is created and none is started. *)
Theorem draw_stack_all_known_no_process self coord ts :
  (∀ layer n, layer ∈ stack self → refers layer n → is_Some (ts !! n)) →
  procs (draw_stack self coord ts).1 = [] ∧
  started (draw_stack self coord ts).1 = [].
Proof.
  intros Hk.
  assert ((plan_stack self coord ts).1 = enter ts) as E.
  { apply plan_known. intros layer n Hin Href. simpl.
    apply keys_elem. by eapply Hk. }
  rewrite draw_stack_started, draw_stack_procs, E. simpl.
  split; [done|]. by destruct ((plan_stack self coord ts).2).
Qed.

(** C5. A directive whose zoom restriction excludes the zoom of the
    coordinate is passed over: its iteration leaves the state as it is
    and raises nothing, also when it gives src, mask and color together,
    and planning a stack with it is planning the stack without it. *)
Theorem plan_skips_excluded_zoom self coord layer (z : string) st :
  layer !! "zoom" = Some z → in_zoom coord z = inr false →
  plan_layer self coord layer st = (st, None) ∧
  ∀ pre post,
    plan self coord (pre ++ layer :: post) st =
    plan self coord (pre ++ post) st.
Proof.
  intros Hz Hin.
  assert (∀ st', plan_layer self coord layer st' = (st', None)) as Hskip.
  { intros st'. unfold plan_layer, zoom_skips. by rewrite Hz, Hin. }
  split; [apply Hskip|]. intros pre post. rewrite !plan_app.
  destruct (plan self coord pre st) as [st' [e|]]; [done|].
  simpl. by rewrite Hskip.
Qed.

(** C2, amended. A stack with a directive in zoom that gives src, mask
    and color together makes [draw_stack] raise before any process is
    started; the exception is the [KnownUnknown] of that directive when
    planning the directives before it raised nothing. *)
Theorem draw_stack_all_three_raises self coord ts pre layer post :
  stack self = pre ++ layer :: post →
  gives_all_three layer → zoom_skips coord layer = inr false →
  ∃ e, (draw_stack self coord ts).2 = Raised e ∧
       started (draw_stack self coord ts).1 = [] ∧
       ((plan self coord pre (enter ts)).2 = None →
        ∃ s c m, layer !! "src" = Some s ∧ layer !! "color" = Some c ∧
                 layer !! "mask" = Some m ∧
                 e = KnownUnknown (triple_message s c m)).
Proof.
  intros Hstack Hall Hz.
  assert (∀ st, plan_layer self coord layer st =
    (st, Some (KnownUnknown
                 (triple_message (default "" (layer !! "src"))
                                 (default "" (layer !! "color"))
                                 (default "" (layer !! "mask"))))))
    as Hraise.
  { intros st. unfold plan_layer. rewrite Hz.
    unfold gives_all_three in Hall. by rewrite Hall. }
  assert (∃ e, (plan_stack self coord ts).2 = Some e ∧
    ((plan self coord pre (enter ts)).2 = None →
     e = KnownUnknown
           (triple_message (default "" (layer !! "src"))
                           (default "" (layer !! "color"))
                           (default "" (layer !! "mask")))))
    as (e & He & Hmsg).
  { unfold plan_stack. rewrite Hstack, plan_app.
    destruct (plan self coord pre (enter ts)) as [st [e|]]; simpl.
    - by exists e.
    - rewrite Hraise. eauto. }
  exists e. rewrite draw_stack_started, He. split; [|split; [done|]].
  - unfold draw_stack.
    destruct (plan_stack self coord ts) as [st o]; simpl in *. by subst o.
  - intros Hpre. rewrite (Hmsg Hpre).
    unfold gives_all_three in Hall.
    apply andb_prop in Hall as [[Hs Hc]%andb_prop Hm].
    apply truthy_inv in Hs as (s & -> & _).
    apply truthy_inv in Hc as (c & -> & _).
    apply truthy_inv in Hm as (m & -> & _). by exists s, c, m.
Qed.

(** ** The workers and the queue *)

Lemma run_report p q :
  (run p q).1 = q ++ option_list (report p).
Proof.
  unfold run, report, render, layer_bitmap, local_bitmap.
  destruct (target p) as [source l c|source cfg c d]; simpl;
    case_match; simpl; by rewrite ?app_nil_r.
Qed.

Lemma run_workers_reports (ps : list (Process Layer)) q :
  run_workers ps q = q ++ omap report ps.
Proof.
  unfold run_workers. revert q.
  induction ps as [|p ps IH]; intros q; simpl.
  - by rewrite app_nil_r.
  - rewrite IH, run_report.
    destruct (report p); simpl; by rewrite <- ?app_assoc, ?app_nil_r.
Qed.

Lemma omap_length_le {A B} (f : A → option B) (l : list A) :
  length (omap f l) ≤ length l.
Proof.
  induction l as [|x l IH]; csimpl; [done|].
  destruct (f x); simpl; lia.
Qed.

Lemma omap_length_full {A B} (f : A → option B) (l : list A) :
  length l ≤ length (omap f l) ↔ Forall (λ x, is_Some (f x)) l.
Proof.
  induction l as [|x l IH]; csimpl.
  - split; [constructor|lia].
  - rewrite Forall_cons. pose proof (omap_length_le f l).
    destruct (f x) as [y|]; simpl.
    + rewrite <- IH. split; [intros; split; [by eexists|lia]|].
      intros [_ ?]. lia.
    + split; [lia|]. by intros [[? ?] _].
Qed.

(** ** Collecting *)

Lemma collect_spec n q ts :
  collect n q ts =
  (merged ts (take n q),
   if decide (n ≤ length q) then Some (drop n q) else None).
Proof.
  revert q ts. induction n as [|n IH]; intros q ts; simpl.
  - done.
  - destruct q as [|t q]; simpl; [done|].
    rewrite IH. f_equal. repeat case_decide; done || lia.
Qed.

Lemma merged_lookup_Some ts q (k : string) (v : Image) :
  merged ts q !! k = Some v →
  ts !! k = Some v ∨ ∃ t, t ∈ q ∧ t !! k = Some v.
Proof.
  unfold merged. revert ts.
  induction q as [|t q IH]; intros ts; simpl; [by left|].
  intros [Hu | (t' & Hin & Ht')]%IH.
  - apply lookup_union_Some_raw in Hu as [Ht | [_ Hts]]; [|by left].
    right. exists t. split; [by left|done].
  - right. exists t'. split; [by right|done].
Qed.

Lemma merged_frame ts q (k : string) :
  (∀ t, t ∈ q → t !! k = None) → merged ts q !! k = ts !! k.
Proof.
  unfold merged. revert ts.
  induction q as [|t q IH]; intros ts Hq; simpl; [done|].
  rewrite IH by (intros t' Hin; apply Hq; by right).
  rewrite lookup_union_r; [done|]. apply Hq. by left.
Qed.

Lemma merged_lookup_in ts q t (k : string) :
  t ∈ q → is_Some (t !! k) →
  ∃ t', t' ∈ q ∧ is_Some (t' !! k) ∧ merged ts q !! k = t' !! k.
Proof.
  unfold merged. revert ts t.
  induction q as [|t0 q IH]; intros ts t Hin Hk;
    [by apply elem_of_nil in Hin|].
  simpl. destruct (decide (Exists (λ t1, is_Some (t1 !! k)) q))
    as [(t1 & Hin1 & Hk1)%Exists_exists|Hno].
  - destruct (IH (t0 ∪ ts) t1 Hin1 Hk1) as (t' & ? & ? & ?).
    exists t'. split; [by right|done].
  - rewrite Exists_exists in Hno.
    apply elem_of_cons in Hin as [->|Hin]; [|destruct Hno; eauto].
    exists t0. split; [by left|]. split; [done|].
    fold (merged (t0 ∪ ts) q). rewrite merged_frame.
    + destruct Hk as [v Hv]. rewrite Hv. by apply lookup_union_Some_l.
    + intros t' Hin'. apply eq_None_not_Some. intros HS.
      apply Hno. eauto.
Qed.

(** ** The whole call, once planning has completed *)

Lemma all_report_iff (ps : list (Process Layer)) :
  length ps ≤ length (omap report (sched ps)) ↔
  Forall (λ p, is_Some (report p)) ps.
Proof.
  rewrite <- (Permutation_length (sched_runs_each_once ps)).
  rewrite omap_length_full. by rewrite (sched_runs_each_once ps).
Qed.

Lemma draw_stack_planned self coord ts st :
  plan_stack self coord ts = (st, None) →
  draw_stack self coord ts =
  let q := omap report (sched (procs st)) in
  if decide (Forall (λ p, is_Some (report p)) (procs st))
  then
    ({| tiles := merged ts q; stackLayers := stackLayers st;
        procs := procs st; started := procs st; tileQueue := [];
        joined := procs st; handoff := Some (merged ts q) |},
     match Sandwich_draw_stack self coord (merged ts q) with
     | inr img => Returned img
     | inl e => Raised e
     end)
  else
    ({| tiles := merged ts q; stackLayers := stackLayers st;
        procs := procs st; started := procs st; tileQueue := [];
        joined := []; handoff := None |},
     Blocked).
Proof.
  intros E. unfold draw_stack. rewrite E.
  pose proof (plan_same self coord (stack self) (enter ts)) as Hsame.
  fold (plan_stack self coord ts) in Hsame. rewrite E in Hsame.
  destruct Hsame as (Hts & _ & Hq & _). simpl in Hts, Hq.
  cbn [start_all tiles tileQueue procs started stackLayers].
  rewrite Hts, Hq, run_workers_reports, collect_spec. simpl.
  pose proof (all_report_iff (procs st)) as Hall.
  pose proof (omap_length_le report (sched (procs st))) as Hle.
  rewrite (Permutation_length (sched_runs_each_once (procs st))) in Hle.
  destruct (decide (length (procs st) ≤ _)) as [Hn|Hn];
    destruct (decide (Forall _ (procs st))) as [Hf|Hf];
    try (by apply Hall in Hn); try (by apply Hall in Hf).
  - rewrite take_ge, drop_ge by lia.
    by destruct (Sandwich_draw_stack self coord _).
  - by rewrite take_ge by lia.
Qed.

Lemma report_elem (ps : list (Process Layer)) (t : gmap string Image) :
  t ∈ omap report (sched ps) ↔ ∃ p, p ∈ ps ∧ report p = Some t.
Proof.
  rewrite list_elem_of_omap.
  by setoid_rewrite (sched_runs_each_once ps).
Qed.

Lemma report_lookup p (t : gmap string Image) (k : string) (v : Image) :
  report p = Some t → t !! k = Some v →
  k = target_source (target p) ∧ render p = inr v.
Proof.
  unfold report. destruct (render p) as [e|img]; [done|].
  intros [= <-] [<- <-]%lookup_singleton_Some. done.
Qed.

Lemma same_name_same_process (ps : list (Process Layer)) p p' :
  NoDup (name <$> ps) → p ∈ ps → p' ∈ ps → name p = name p' → p = p'.
Proof.
  induction ps as [|p0 ps IH]; [by intros _ ?%elem_of_nil|].
  simpl. rewrite NoDup_cons, !elem_of_cons.
  intros [Hp0 Hnd] [->|Hin] [->|Hin'] En; [done|..|by apply IH].
  - destruct Hp0. rewrite En. by apply list_elem_of_fmap_2.
  - destruct Hp0. rewrite <- En. by apply list_elem_of_fmap_2.
Qed.

(** The dictionary after collection: the entries of the cache are as
    they were, and every other entry is the image rendered by the process
    of that name. *)
Lemma merged_reports self coord ts st :
  plan_stack self coord ts = (st, None) →
  let c := merged ts (omap report (sched (procs st))) in
  (∀ k v, ts !! k = Some v → c !! k = Some v) ∧
  (∀ k v, c !! k = Some v → ts !! k = Some v ∨
     ∃ p, p ∈ procs st ∧ name p = k ∧ render p = inr v) ∧
  (∀ p v, p ∈ procs st → render p = inr v → c !! name p = Some v).
Proof.
  intros E. pose proof (plan_stack_inv self coord ts) as (_ & Hnd & Hp).
  rewrite E in Hnd, Hp. simpl in Hnd, Hp.
  assert (∀ t k v, t ∈ omap report (sched (procs st)) →
            t !! k = Some v →
            ∃ p, p ∈ procs st ∧ name p = k ∧ render p = inr v) as Hitem.
  { intros t k v (p & Hin & Hr)%report_elem Hk.
    destruct (report_lookup _ _ _ _ Hr Hk) as [-> Hv].
    exists p. destruct (Hp p Hin) as (_ & _ & ->). done. }
  simpl. split; [|split].
  - intros k v Hk. rewrite merged_frame; [done|].
    intros t Hin. apply eq_None_not_Some. intros [v' Hv'].
    destruct (Hitem t k v' Hin Hv') as (p & Hpin & <- & _).
    destruct (Hp p Hpin) as (_ & HK & _). apply HK, keys_elem. eauto.
  - intros k v [Hk | (t & Hin & Hk)]%merged_lookup_Some; [by left|].
    right. by eapply Hitem.
  - intros p v Hin Hv.
    assert (report p = Some {[ name p := v ]}) as Hr.
    { unfold report. rewrite Hv. by destruct (Hp p Hin) as (_ & _ & ->). }
    destruct (merged_lookup_in ts (omap report (sched (procs st)))
                {[ name p := v ]} (name p)) as (t' & Hin' & [v' Hv'] & ->).
    { apply report_elem. eauto. }
    { rewrite lookup_singleton_eq. eauto. }
    rewrite Hv'. destruct (Hitem t' _ v' Hin' Hv') as (p' & Hin2 & En & Hr').
    rewrite (same_name_same_process _ _ _ Hnd Hin2 Hin En) in Hr'.
    congruence.
Qed.

Lemma report_None p : report p = None ↔ ∃ e, render p = inl e.
Proof.
  unfold report. destruct (render p) as [e|img]; split; try done.
  - eauto.
  - by intros [? ?].
Qed.

Lemma draw_stack_blocked_iff self coord ts :
  (plan_stack self coord ts).2 = None →
  (draw_stack self coord ts).2 = Blocked ↔
  ∃ p, p ∈ procs (plan_stack self coord ts).1 ∧ ∃ e, render p = inl e.
Proof.
  destruct (plan_stack self coord ts) as [st o] eqn:E. simpl.
  intros ->. rewrite (draw_stack_planned _ _ _ _ E). simpl.
  destruct (decide (Forall _ (procs st))) as [Hf|Hf]; simpl.
  - split.
    + by destruct (Sandwich_draw_stack self coord _).
    + intros (p & Hin & Hr%report_None).
      rewrite Forall_forall in Hf. destruct (Hf p Hin) as [t Ht].
      congruence.
  - split; [intros _|done].
    apply not_Forall_Exists in Hf; [|apply _].
    apply Exists_exists in Hf as (p & Hin & Hn).
    exists p. split; [done|]. apply report_None.
    by apply eq_None_not_Some.
Qed.

Lemma merged_swap (ts : gmap string Image) (k1 k2 : string)
    (v1 v2 : Image) :
  k1 ≠ k2 →
  ({[ k1 := v1 ]} ∪ ({[ k2 := v2 ]} ∪ ts) : gmap string Image) =
  {[ k2 := v2 ]} ∪ ({[ k1 := v1 ]} ∪ ts).
Proof.
  intros Hne. rewrite <- !insert_union_singleton_l.
  by apply insert_insert_ne.
Qed.

Lemma merged_permutation (rs rs' : list (string * Image)) :
  rs ≡ₚ rs' → NoDup rs.*1 →
  ∀ ts, merged ts ((λ r, {[ r.1 := r.2 ]}) <$> rs) =
        merged ts ((λ r, {[ r.1 := r.2 ]}) <$> rs').
Proof.
  unfold merged. induction 1 as [|r l l' Hp IH|r r' l|l l' l'' Hp IH Hp' IH'];
    intros Hnd ts; simpl in *.
  - done.
  - apply IH. by apply NoDup_cons in Hnd as [_ ?].
  - rewrite merged_swap; [done|].
    apply NoDup_cons in Hnd as [Hnin _]. intros E. apply Hnin.
    rewrite E. by left.
  - rewrite IH by done. apply IH'. by rewrite <- Hp.
Qed.

(** C6, amended. A worker puts one result on the queue, the dictionary
    of its source name and the image, exactly when its render operation
    returns an image; when the render operation raises, the worker puts
    nothing and the exception leaves it. It never puts more than one. *)
Theorem worker_puts_what_is_rendered (source : string) (l : Layer)
    (cfg : Configuration Layer) coord (d : Z) q :
  (∀ img, Sandwich_layer_bitmap l coord = inr img →
     layer_bitmap source l coord q = (q ++ [{[ source := img ]}], inr tt)) ∧
  (∀ e, Sandwich_layer_bitmap l coord = inl e →
     layer_bitmap source l coord q = (q, inl e)) ∧
  (∀ img, Sandwich_local_bitmap source cfg coord d = inr img →
     local_bitmap source cfg coord d q
     = (q ++ [{[ source := img ]}], inr tt)) ∧
  (∀ e, Sandwich_local_bitmap source cfg coord d = inl e →
     local_bitmap source cfg coord d q = (q, inl e)) ∧
  length (layer_bitmap source l coord q).1 ≤ S (length q) ∧
  length (local_bitmap source cfg coord d q).1 ≤ S (length q).
Proof.
  unfold layer_bitmap, local_bitmap.
  repeat split; try (by intros ? ->).
  - destruct (Sandwich_layer_bitmap l coord); simpl;
      rewrite ?length_app; simpl; lia.
  - destruct (Sandwich_local_bitmap source cfg coord d); simpl;
      rewrite ?length_app; simpl; lia.
Qed.

(** C3, amended. The collection loop does one [get()] per expected
    result and no [get()] has a timeout: with enough results on the queue
    it takes the first [n] and merges them, with fewer it never ends; and
    a call whose planning completed blocks exactly when the render
    operation of one of its processes fails to return an image. *)
Theorem collect_blocks_iff_result_missing n q ts self coord :
  ((collect n q ts).2 = None ↔ length q < n) ∧
  (n ≤ length q →
   collect n q ts = (merged ts (take n q), Some (drop n q))) ∧
  ((plan_stack self coord ts).2 = None →
   (draw_stack self coord ts).2 = Blocked ↔
   ∃ p, p ∈ procs (plan_stack self coord ts).1 ∧ ∃ e, render p = inl e).
Proof.
  rewrite collect_spec. simpl. split; [|split].
  - case_decide; split; (done || lia).
  - intros Hn. by rewrite decide_True.
  - apply draw_stack_blocked_iff.
Qed.

(** C7, amended. When the render operation of a planned job fails,
    [draw_stack] neither returns nor raises: it stays in
    [tileQueue.get()]. The compositing step is not invoked and no
    process is joined. *)
Theorem draw_stack_failed_job_blocks self coord ts p (e : exn) :
  (plan_stack self coord ts).2 = None →
  p ∈ procs (plan_stack self coord ts).1 → render p = inl e →
  (draw_stack self coord ts).2 = Blocked ∧
  handoff (draw_stack self coord ts).1 = None ∧
  joined (draw_stack self coord ts).1 = [].
Proof.
  intros Hok Hin Hr.
  assert ((draw_stack self coord ts).2 = Blocked) as Hb.
  { apply draw_stack_blocked_iff; eauto. }
  split; [done|]. revert Hb.
  destruct (plan_stack self coord ts) as [st o] eqn:E. simpl in Hok.
  subst o. rewrite (draw_stack_planned _ _ _ _ E). simpl.
  case_decide; simpl; [|done].
  by destruct (Sandwich_draw_stack self coord _).
Qed.

(** C8. Results for pairwise distinct names, fed to the collection loop
    in any order, give the same final dictionary. *)
Theorem collect_order_independent (rs rs' : list (string * Image)) ts :
  NoDup rs.*1 → rs ≡ₚ rs' →
  collect (length rs) ((λ r, {[ r.1 := r.2 ]}) <$> rs) ts =
  collect (length rs') ((λ r, {[ r.1 := r.2 ]}) <$> rs') ts.
Proof.
  intros Hnd Hp. rewrite !collect_spec, !length_fmap.
  rewrite !decide_True by done.
  rewrite !take_ge, !drop_ge by (rewrite length_fmap; lia).
  by rewrite (merged_permutation rs rs' Hp Hnd).
Qed.

(** C9. When [draw_stack] returns an image, the compositing step was
    invoked, and whenever it is invoked the dictionary it is handed has
    a key for every src and mask name of every directive that was not
    skipped for its zoom, and holds the rendered image of every planned
    job. *)
Theorem draw_stack_hands_off_complete_cache self coord ts :
  (∀ img, (draw_stack self coord ts).2 = Returned img →
          is_Some (handoff (draw_stack self coord ts).1)) ∧
  ∀ c, handoff (draw_stack self coord ts).1 = Some c →
    (∀ layer n, layer ∈ stack self →
       zoom_skips coord layer = inr false → refers layer n →
       is_Some (c !! n)) ∧
    (∀ p, p ∈ procs (draw_stack self coord ts).1 →
       ∃ v, render p = inr v ∧ c !! name p = Some v).
Proof.
  rewrite draw_stack_procs.
  pose proof (plan_same self coord (stack self) (enter ts)) as Hsame.
  fold (plan_stack self coord ts) in Hsame.
  destruct (plan_stack self coord ts) as [st [e|]] eqn:E.
  { unfold draw_stack. rewrite E. simpl.
    destruct Hsame as (_ & _ & _ & _ & Hh). simpl in Hh.
    rewrite Hh. done. }
  clear Hsame. rewrite (draw_stack_planned _ _ _ _ E). simpl.
  destruct (merged_reports _ _ _ _ E) as (Hkeep & _ & Hnew).
  simpl in Hkeep, Hnew.
  destruct (decide (Forall _ (procs st))) as [Hf|Hf]; simpl; [|done].
  split; [by eauto|]. intros c [= <-].
  rewrite Forall_forall in Hf.
  assert (∀ p, p ∈ procs st →
    ∃ v, render p = inr v ∧
         merged ts (omap report (sched (procs st))) !! name p = Some v)
    as Hjobs.
  { intros p Hin. destruct (Hf p Hin) as [t Ht].
    destruct (render p) as [e|v] eqn:Hr.
    - assert (report p = None) by (apply report_None; eauto). congruence.
    - exists v. split; [done|]. by apply Hnew. }
  split; [|done]. intros layer n Hin Hz Href.
  pose proof (plan_lands _ _ _ _ _ _ _ E Hin Hz Href) as Hl.
  destruct (plan_accounted _ _ _ _ _ _ E (enter_accounted ts) n Hl)
    as [[v Hv]%keys_elem | Hp].
  - exists v. by apply Hkeep.
  - apply list_elem_of_fmap in Hp as (p & -> & Hp).
    destruct (Hjobs p Hp) as (v & _ & Hv). by exists v.
Qed.

(** C10. Planning leaves the caller's cache as it was: the names it
    remembers go to [stackLayers], a list of its own. After the call,
    every entry the cache had is still there with the same image, and
    every other key is the name of a process of this call. *)
Theorem draw_stack_keeps_cache self coord ts :
  tiles (plan_stack self coord ts).1 = ts ∧
  (∀ k v, ts !! k = Some v →
     tiles (draw_stack self coord ts).1 !! k = Some v) ∧
  (∀ k, is_Some (tiles (draw_stack self coord ts).1 !! k) →
     is_Some (ts !! k) ∨ k ∈ name <$> procs (draw_stack self coord ts).1).
Proof.
  rewrite draw_stack_procs.
  pose proof (plan_same self coord (stack self) (enter ts)) as Hsame.
  fold (plan_stack self coord ts) in Hsame.
  destruct Hsame as (Hts & _). simpl in Hts. split; [done|].
  destruct (plan_stack self coord ts) as [st [e|]] eqn:E.
  { unfold draw_stack. rewrite E. simpl in *. rewrite Hts.
    split; [done|]. by left. }
  destruct (merged_reports _ _ _ _ E) as (Hkeep & Hfrom & _).
  simpl in Hkeep, Hfrom.
  assert (tiles (draw_stack self coord ts).1 =
          merged ts (omap report (sched (procs st)))) as ->.
  { rewrite (draw_stack_planned _ _ _ _ E). simpl. by case_decide. }
  simpl. split; [done|]. intros k [v Hv].
  destruct (Hfrom k v Hv) as [Hk | (p & Hin & <- & _)]; [by eauto|].
  right. by apply list_elem_of_fmap_2.
Qed.

(** ** Where the processes come from *)

Lemma plan_source_origin self coord v st p :
  p ∈ procs (plan_source self coord v st) →
  p ∈ procs st ∨
  (v = Some (name p) ∧ name p ≠ "" ∧ name p ∉ stackLayers st ∧
   follows_config self coord p).
Proof.
  unfold plan_source. destruct v as [s|]; [|by left].
  destruct (truthy _ && _) eqn:Hw; [|by left].
  apply (wanted_iff (Some s) s _ eq_refl) in Hw as [Hs Hnin].
  destruct (layers (config self) !! s) as [l|] eqn:Hl; simpl;
    rewrite elem_of_app, list_elem_of_singleton;
    (intros [Hin | ->]; [by left|right]); simpl;
    unfold follows_config; simpl; by rewrite Hl.
Qed.

Lemma plan_mask_origin self coord v st p :
  p ∈ procs (plan_mask self coord v st).1 →
  p ∈ procs st ∨
  (v = Some (name p) ∧ name p ≠ "" ∧ name p ∉ stackLayers st ∧
   follows_config self coord p).
Proof.
  unfold plan_mask. destruct v as [m|]; [|by left].
  destruct (truthy _ && _) eqn:Hw; [|by left].
  apply (wanted_iff (Some m) m _ eq_refl) in Hw as [Hm Hnin].
  destruct (layers (config self) !! m) as [l|] eqn:Hl; simpl; [|by left].
  rewrite elem_of_app, list_elem_of_singleton.
  intros [Hin | ->]; [by left|right]; simpl.
  unfold follows_config; simpl; by rewrite Hl.
Qed.

Lemma plan_layer_origin self coord layer st p :
  p ∈ procs (plan_layer self coord layer st).1 →
  p ∈ procs st ∨
  (zoom_skips coord layer = inr false ∧ refers layer (name p) ∧
   name p ∉ stackLayers st ∧ follows_config self coord p).
Proof.
  unfold plan_layer.
  destruct (zoom_skips coord layer) as [e|[]]; simpl; [by left..|].
  destruct (truthy _ && _ && _); simpl; [by left|].
  intros [[Hin | (Hv & Hn & Hnin & Hf)]%plan_source_origin
          | (Hv & Hn & Hnin & Hf)]%plan_mask_origin.
  - by left.
  - right. unfold refers. eauto 10.
  - right. split; [done|]. split; [unfold refers; eauto|].
    split; [|done]. intros Hin. apply Hnin. by apply plan_source_mono.
Qed.

Lemma plan_origin self coord ls st p :
  p ∈ procs (plan self coord ls st).1 →
  p ∈ procs st ∨
  ((∃ layer, layer ∈ ls ∧ zoom_skips coord layer = inr false ∧
             refers layer (name p)) ∧
   name p ∉ stackLayers st ∧ follows_config self coord p).
Proof.
  revert st. induction ls as [|l ls IH]; intros st; simpl; [by left|].
  pose proof (plan_layer_origin self coord l st p) as Hl.
  pose proof (plan_layer_mono self coord l st) as Hm.
  destruct (plan_layer self coord l st) as [st1 [e|]]; simpl in *.
  - intros [Hin | (Hz & Hr & Hnin & Hf)]%Hl; [by left|].
    right. split; [|done]. exists l. split; [by left|done].
  - intros [[Hin | (Hz & Hr & Hnin & Hf)]%Hl
            | ((layer & Hin & Hz & Hr) & Hnin & Hf)]%IH.
    + by left.
    + right. split; [|done]. exists l. split; [by left|done].
    + right. split; [exists layer; split; [by right|done]|].
      split; [|done]. intros H'. apply Hnin. by apply Hm.
Qed.

(** X1. Every process [draw_stack] creates bears a non-empty name that the
    cache does not hold and that a directive in zoom gives as its src or
    mask; and its target follows the configuration: the layer worker on
    the configured layer of that name, the bitmap worker when there is
    none. *)
Theorem draw_stack_processes_come_from_references self coord ts p :
  p ∈ procs (draw_stack self coord ts).1 →
  name p ≠ "" ∧ ts !! name p = None ∧
  (∃ layer, layer ∈ stack self ∧ zoom_skips coord layer = inr false ∧
            refers layer (name p)) ∧
  follows_config self coord p.
Proof.
  rewrite draw_stack_procs. unfold plan_stack.
  intros [Hin | ((layer & Hin & Hz & Hr) & Hnin & Hf)]%plan_origin.
  - by apply elem_of_nil in Hin.
  - split; [by destruct Hr|]. split.
    + apply eq_None_not_Some. intros HS. apply Hnin. simpl.
      by apply keys_elem.
    + split; [by exists layer|done].
Qed.

(** ** The names planning remembers *)

Lemma plan_source_names K self coord v st :
  stackLayers st = K ++ (name <$> procs st) →
  stackLayers (plan_source self coord v st) =
  K ++ (name <$> procs (plan_source self coord v st)).
Proof.
  intros Hst. unfold plan_source. destruct v as [s|]; [|done].
  destruct (truthy _ && _); [|done].
  destruct (layers (config self) !! s); simpl;
    by rewrite Hst, fmap_app, app_assoc.
Qed.

Lemma plan_mask_names K self coord v st st' :
  plan_mask self coord v st = (st', None) →
  stackLayers st = K ++ (name <$> procs st) →
  stackLayers st' = K ++ (name <$> procs st').
Proof.
  unfold plan_mask. intros E Hst. destruct v as [m|]; [|by simplify_eq].
  destruct (truthy _ && _); [|by simplify_eq].
  destruct (layers (config self) !! m); simplify_eq; simpl.
  by rewrite Hst, fmap_app, app_assoc.
Qed.

Lemma plan_layer_names K self coord layer st st' :
  plan_layer self coord layer st = (st', None) →
  stackLayers st = K ++ (name <$> procs st) →
  stackLayers st' = K ++ (name <$> procs st').
Proof.
  unfold plan_layer. intros E Hst.
  destruct (zoom_skips coord layer) as [e|[]]; simplify_eq; [done|].
  destruct (truthy _ && _ && _); simplify_eq.
  eapply plan_mask_names; [done|]. by apply plan_source_names.
Qed.

Lemma plan_names K self coord ls st st' :
  plan self coord ls st = (st', None) →
  stackLayers st = K ++ (name <$> procs st) →
  stackLayers st' = K ++ (name <$> procs st').
Proof.
  revert st. induction ls as [|l ls IH]; intros st E Hst; simpl in E.
  - by simplify_eq.
  - destruct (plan_layer self coord l st) as [st1 [e|]] eqn:El; [done|].
    eapply IH; [done|]. by eapply plan_layer_names.
Qed.

(** X2. When planning completes, [stackLayers] is the list of the keys of
    the cache followed by the names of the processes, in the order of
    their creation: each name appended to it has its process. *)
Theorem plan_stack_stackLayers self coord ts :
  (plan_stack self coord ts).2 = None →
  stackLayers (plan_stack self coord ts).1 =
  (map_to_list ts).*1 ++ (name <$> procs (plan_stack self coord ts).1).
Proof.
  unfold plan_stack.
  destruct (plan self coord (stack self) (enter ts)) as [st o] eqn:E.
  simpl. intros ->. eapply plan_names; [done|]. simpl.
  by rewrite app_nil_r.
Qed.

(** ** The exceptions of planning *)

Lemma plan_mask_error self coord v st st' (e : exn) :
  plan_mask self coord v st = (st', Some e) →
  ∃ m, v = Some m ∧ m ≠ "" ∧ m ∉ stackLayers st ∧
       layers (config self) !! m = None ∧ e = KeyError m.
Proof.
  unfold plan_mask. intros E. destruct v as [m|]; [|by simplify_eq].
  destruct (truthy _ && _) eqn:Hw; [|by simplify_eq].
  apply (wanted_iff (Some m) m _ eq_refl) in Hw as [Hm Hnin].
  destruct (layers (config self) !! m) eqn:Hl; simplify_eq.
  by exists m.
Qed.

Lemma plan_layer_error self coord ts layer st st' (e : exn) :
  (map_to_list ts).*1 ⊆ stackLayers st →
  plan_layer self coord layer st = (st', Some e) →
  plan_error_of self coord ts layer e.
Proof.
  unfold plan_layer, plan_error_of. intros HK E.
  destruct (zoom_skips coord layer) as [e'|[]] eqn:Hz; simplify_eq.
  - left. unfold zoom_skips in Hz.
    destruct (layer !! "zoom") as [z|]; [|done]. exists z.
    split; [done|]. by destruct (in_zoom coord z).
  - destruct (truthy _ && _ && _) eqn:Hall; simplify_eq.
    + right. left. split; [done|].
      apply andb_prop in Hall as [[Hs Hc]%andb_prop Hm].
      apply truthy_inv in Hs as (s & -> & ?).
      apply truthy_inv in Hc as (c & -> & ?).
      apply truthy_inv in Hm as (m & -> & ?). by exists s, c, m.
    + right. right. split; [done|].
      apply plan_mask_error in E as (m & Hv & Hm & Hnin & Hl & ->).
      exists m. repeat (split; [done|]). split; [|done].
      apply eq_None_not_Some. intros HS%keys_elem.
      apply Hnin, plan_source_mono. by apply HK.
Qed.

Lemma plan_error self coord ts ls st st' (e : exn) :
  (map_to_list ts).*1 ⊆ stackLayers st →
  plan self coord ls st = (st', Some e) →
  ∃ layer, layer ∈ ls ∧ plan_error_of self coord ts layer e.
Proof.
  revert st. induction ls as [|l ls IH]; intros st HK E; simpl in E;
    [done|].
  pose proof (plan_layer_mono self coord l st) as Hm.
  destruct (plan_layer self coord l st) as [st1 [e1|]] eqn:El;
    simplify_eq.
  - exists l. split; [by left|]. by eapply plan_layer_error.
  - destruct (IH st1) as (layer & Hin & He); [by etrans|done|].
    exists layer. split; [by right|done].
Qed.

(** X3. An exception that leaves [draw_stack] is one of four: what
    [in_zoom] raised for a directive, the [KnownUnknown] of a directive in
    zoom giving src, color and mask together, the [KeyError] of a mask
    name of a directive in zoom that is neither a configured layer nor in
    the cache, all three before any process is started, or what the
    compositor raised. What a renderer raises never reaches the caller. *)
Theorem draw_stack_raises_only self coord ts (e : exn) :
  (draw_stack self coord ts).2 = Raised e →
  ((∃ layer, layer ∈ stack self ∧ plan_error_of self coord ts layer e) ∧
   started (draw_stack self coord ts).1 = []) ∨
  Sandwich_draw_stack self coord (tiles (draw_stack self coord ts).1)
  = inl e.
Proof.
  rewrite draw_stack_started.
  destruct (plan_stack self coord ts) as [st [e'|]] eqn:E.
  - unfold draw_stack. rewrite E. simpl. intros [= ->]. left.
    split; [|done]. by eapply (plan_error _ _ _ _ (enter ts)).
  - rewrite (draw_stack_planned _ _ _ _ E). simpl.
    case_decide; simpl; [|done].
    destruct (Sandwich_draw_stack self coord _) eqn:Hc; [|done].
    intros [= ->]. by right.
Qed.

(** X4. A directive in zoom, not giving src, color and mask together,
    whose non-empty mask name is not its src, not yet in [stackLayers] and
    no configured layer, makes [draw_stack] raise [KeyError] on that name
    when the directives before it raised nothing; no process is
    started. *)
Theorem draw_stack_unconfigured_mask_raises self coord ts pre layer post
    st (m : string) :
  stack self = pre ++ layer :: post →
  plan self coord pre (enter ts) = (st, None) →
  zoom_skips coord layer = inr false → ¬ gives_all_three layer →
  layer !! "mask" = Some m → m ≠ "" → layer !! "src" ≠ Some m →
  m ∉ stackLayers st → layers (config self) !! m = None →
  (draw_stack self coord ts).2 = Raised (KeyError m) ∧
  started (draw_stack self coord ts).1 = [].
Proof.
  intros Hstack Hpre Hz Hall Hmask Hm Hsrc Hnin Hl.
  assert (m ∉ stackLayers (plan_source self coord (layer !! "src") st))
    as Hnin'.
  { unfold plan_source. destruct (layer !! "src") as [s|]; [|done].
    destruct (truthy _ && _); [|done].
    assert (s ≠ m) by congruence.
    destruct (layers (config self) !! s); simpl; set_solver. }
  assert ((plan_stack self coord ts).2 = Some (KeyError m)) as He.
  { unfold plan_stack. rewrite Hstack, plan_app, Hpre. simpl.
    unfold plan_layer. rewrite Hz.
    unfold gives_all_three in Hall. apply not_true_is_false in Hall.
    rewrite Hall. unfold plan_mask. rewrite Hmask.
    rewrite (proj2 (wanted_iff (Some m) m _ eq_refl)) by done.
    by rewrite Hl. }
  rewrite draw_stack_started, He. split; [|done].
  unfold draw_stack.
  destruct (plan_stack self coord ts) as [st' o]. simpl in He. by subst o.
Qed.

(** ** Starting and joining *)

(** X5. Processes are started all together or not at all: once planning
    has completed every created process is started. Whenever the call
    comes back, by returning or by raising, every started process has been
    joined and nothing is left on the queue; while it is blocked no
    process has been joined. *)
Theorem draw_stack_joins_what_it_started self coord ts :
  ((plan_stack self coord ts).2 = None →
   started (draw_stack self coord ts).1
   = procs (draw_stack self coord ts).1) ∧
  (((draw_stack self coord ts).2 ≠ Blocked) →
   joined (draw_stack self coord ts).1
   = started (draw_stack self coord ts).1 ∧
   tileQueue (draw_stack self coord ts).1 = []) ∧
  ((draw_stack self coord ts).2 = Blocked →
   joined (draw_stack self coord ts).1 = []).
Proof.
  rewrite draw_stack_started, draw_stack_procs.
  pose proof (plan_same self coord (stack self) (enter ts)) as Hsame.
  fold (plan_stack self coord ts) in Hsame.
  destruct (plan_stack self coord ts) as [st [e|]] eqn:E; simpl.
  - unfold draw_stack. rewrite E. simpl.
    destruct Hsame as (_ & _ & Hq & Hj & _). simpl in Hq, Hj.
    by rewrite Hq, Hj.
  - rewrite (draw_stack_planned _ _ _ _ E). simpl.
    case_decide; simpl.
    + split; [done|]. split; [done|].
      by destruct (Sandwich_draw_stack self coord _).
    + split; [done|]. split; [|done]. by intros [].
Qed.

(** ** The cache after the call *)

Lemma report_result p :
  report p = (λ r, {[ r.1 := r.2 ]}) <$> result p.
Proof. unfold report, result. by destruct (render p). Qed.

Lemma omap_report_results (ps : list (Process Layer)) :
  omap report ps = (λ r, {[ r.1 := r.2 ]}) <$> omap result ps.
Proof.
  induction ps as [|p ps IH]; csimpl; [done|].
  rewrite report_result. destruct (result p); csimpl; by rewrite IH.
Qed.

Lemma results_NoDup (ps : list (Process Layer)) :
  NoDup (name <$> ps) →
  (∀ p, p ∈ ps → target_source (target p) = name p) →
  NoDup (omap result ps).*1.
Proof.
  induction ps as [|p ps IH]; csimpl; [intros; apply NoDup_nil_2|].
  rewrite NoDup_cons. intros [Hp Hnd] Hsrc.
  assert (NoDup (omap result ps).*1) as Hrest.
  { apply IH; [done|]. intros p' Hin. apply Hsrc. by right. }
  unfold result at 1. destruct (render p) as [e|img]; csimpl; [done|].
  apply NoDup_cons. split; [|done].
  rewrite (Hsrc p) by by left.
  intros ([k v] & Hk & (p' & Hin & Hr)%list_elem_of_omap)%list_elem_of_fmap.
  simpl in Hk. apply Hp. unfold result in Hr.
  destruct (render p'); [done|]. injection Hr as Hk' _.
  rewrite Hk, <- Hk', (Hsrc p') by by right.
  by apply list_elem_of_fmap_2.
Qed.

Lemma merged_any_order self coord ts st :
  plan_stack self coord ts = (st, None) →
  merged ts (omap report (sched (procs st)))
  = merged ts (omap report (procs st)).
Proof.
  intros E. pose proof (plan_stack_inv self coord ts) as (_ & Hnd & Hp).
  rewrite E in Hnd, Hp. simpl in Hnd, Hp.
  rewrite !omap_report_results. symmetry.
  apply merged_permutation.
  - by rewrite (sched_runs_each_once (procs st)).
  - apply results_NoDup; [done|]. intros p Hin.
    by destruct (Hp p Hin) as (_ & _ & ?).
Qed.

(** X6. The order in which the workers complete does not show in the
    cache: once planning has completed, the cache after the call, which
    is the one handed to the compositor when that is reached, is the one
    obtained by merging the reports in the order the processes were
    created in. *)
Theorem draw_stack_cache_any_completion_order self coord ts :
  (plan_stack self coord ts).2 = None →
  tiles (draw_stack self coord ts).1
  = merged ts (omap report (procs (plan_stack self coord ts).1)) ∧
  ∀ c, handoff (draw_stack self coord ts).1 = Some c →
       c = merged ts (omap report (procs (plan_stack self coord ts).1)).
Proof.
  destruct (plan_stack self coord ts) as [st o] eqn:E. simpl.
  intros ->. rewrite (draw_stack_planned _ _ _ _ E). simpl.
  rewrite (merged_any_order _ _ _ _ E).
  case_decide; simpl; split; congruence.
Qed.

(** X7. When planning completes and the render operation of every
    planned process returns an image, [draw_stack] does not block: it
    joins every process, hands the cache to the compositor and ends the
    way the compositor does. *)
Theorem draw_stack_ends_as_compositor self coord ts :
  (plan_stack self coord ts).2 = None →
  (∀ p, p ∈ procs (plan_stack self coord ts).1 → ∃ v, render p = inr v) →
  handoff (draw_stack self coord ts).1
  = Some (tiles (draw_stack self coord ts).1) ∧
  joined (draw_stack self coord ts).1 = procs (plan_stack self coord ts).1 ∧
  (draw_stack self coord ts).2 =
  match Sandwich_draw_stack self coord (tiles (draw_stack self coord ts).1)
  with
  | inr img => Returned img
  | inl e => Raised e
  end.
Proof.
  destruct (plan_stack self coord ts) as [st o] eqn:E. simpl.
  intros -> Hall. rewrite (draw_stack_planned _ _ _ _ E). simpl.
  rewrite decide_True; [done|].
  apply Forall_forall. intros p Hin. destruct (Hall p Hin) as [v Hv].
  unfold report. rewrite Hv. eauto.
Qed.

(** X8. Once planning has completed, the cache after the call holds
    exactly the entries it was entered with and, under the name of its
    process, every image a render operation returned, also when the call
    is blocked on the result of another process. *)
Theorem draw_stack_cache_content self coord ts (k : string) (v : Image) :
  (plan_stack self coord ts).2 = None →
  tiles (draw_stack self coord ts).1 !! k = Some v ↔
  ts !! k = Some v ∨
  ∃ p, p ∈ procs (plan_stack self coord ts).1 ∧ name p = k ∧
       render p = inr v.
Proof.
  destruct (plan_stack self coord ts) as [st o] eqn:E. simpl.
  intros ->. destruct (merged_reports _ _ _ _ E) as (Hkeep & Hfrom & Hnew).
  simpl in Hkeep, Hfrom, Hnew.
  assert (tiles (draw_stack self coord ts).1 =
          merged ts (omap report (sched (procs st)))) as ->.
  { rewrite (draw_stack_planned _ _ _ _ E). simpl. by case_decide. }
  split; [apply Hfrom|].
  intros [Hk | (p & Hin & <- & Hr)]; [by apply Hkeep | by apply Hnew].
Qed.

(** ** Repeated directives *)

(** X9. A directive whose iteration raised nothing, met again right
    after or later in the stack, changes nothing and raises nothing: its
    names are in [stackLayers] by then. *)
Theorem plan_layer_again_changes_nothing self coord layer ls st st' st'' :
  plan_layer self coord layer st = (st', None) →
  plan self coord ls st' = (st'', None) →
  plan_layer self coord layer st'' = (st'', None).
Proof.
  intros E Els.
  pose proof (plan_mono self coord ls st') as Hmono.
  rewrite Els in Hmono. simpl in Hmono.
  revert E. unfold plan_layer.
  destruct (zoom_skips coord layer) as [e|[]] eqn:Hz; [done..|].
  destruct (truthy _ && _ && _) eqn:Hall; [done|]. intros E.
  assert (∀ n, refers layer n → n ∈ stackLayers st'') as Hk.
  { intros n Hn. apply Hmono.
    apply (plan_layer_lands self coord layer n st st'); [|done..].
    unfold plan_layer. by rewrite Hz, Hall. }
  rewrite plan_source_known, plan_mask_known; [done|..];
    intros n Hv Hn; apply Hk; split; auto.
Qed.

(** ** How many processes *)

(** X10. When planning completes, the names of the processes list,
    without repetition, exactly the non-empty names that a directive in
    zoom gives as src or mask and that the cache does not hold. *)
Theorem plan_stack_processes_are_missing_names self coord ts (n : string) :
  (plan_stack self coord ts).2 = None →
  NoDup (name <$> procs (plan_stack self coord ts).1) ∧
  (n ∈ name <$> procs (plan_stack self coord ts).1 ↔
   ts !! n = None ∧
   ∃ layer, layer ∈ stack self ∧ zoom_skips coord layer = inr false ∧
            refers layer n).
Proof.
  intros Hok. destruct (plan_stack_inv self coord ts) as (_ & Hnd & _).
  split; [done|]. unfold plan_stack in *.
  destruct (plan self coord (stack self) (enter ts)) as [st o] eqn:E.
  simpl in *. subst o. split.
  - intros (p & -> & Hin)%list_elem_of_fmap.
    assert (p ∈ procs (plan self coord (stack self) (enter ts)).1) as Hp
      by by rewrite E.
    apply plan_origin in Hp as [Hp | (Href & Hnin & _)];
      [by apply elem_of_nil in Hp|].
    split; [|done]. apply eq_None_not_Some. intros HS. apply Hnin.
    simpl. by apply keys_elem.
  - intros (Hnone & layer & Hin & Hz & Href).
    pose proof (plan_lands _ _ _ _ _ _ _ E Hin Hz Href) as Hl.
    destruct (plan_accounted _ _ _ _ _ _ E (enter_accounted ts) n Hl)
      as [[v Hv]%keys_elem | Hp]; [congruence|done].
Qed.

Lemma plan_layer_adds_two self coord layer st :
  length (procs (plan_layer self coord layer st).1) ≤ length (procs st) + 2.
Proof.
  unfold plan_layer, plan_mask, plan_source.
  destruct (zoom_skips coord layer) as [e|[]]; simpl; [lia..|].
  destruct (truthy _ && _ && _); simpl; [lia|].
  repeat case_match; simpl; rewrite ?length_app; simpl; lia.
Qed.

(** X11. A directive adds at most two processes, however the call ends:
    [draw_stack] never creates more than twice as many processes as the
    stack has directives. *)
Theorem draw_stack_at_most_two_per_directive self coord ts :
  length (procs (draw_stack self coord ts).1) ≤ 2 * length (stack self).
Proof.
  rewrite draw_stack_procs. unfold plan_stack.
  assert (∀ ls st, length (procs (plan self coord ls st).1)
                   ≤ length (procs st) + 2 * length ls) as Hplan.
  { induction ls as [|l ls IH]; intros st; simpl; [lia|].
    pose proof (plan_layer_adds_two self coord l st) as Hl.
    destruct (plan_layer self coord l st) as [st1 [e|]]; simpl in *;
      [lia|]. specialize (IH st1). lia. }
  specialize (Hplan (stack self) (enter ts)). simpl in Hplan. lia.
Qed.

End Properties.

(** * The properties at work in the concrete world *)

Lemma one_process_per_name_docs :
  length (filter (λ p, name p = "halos")
            (procs (draw_stack (sample_provider docs_stack)
                               (at_zoom 12) ∅).1)) = 1.
Proof.
  apply (proj2 (draw_stack_one_process_per_name
                  (sample_provider docs_stack) (at_zoom 12) ∅ "halos")).
  - vm_compute. reflexivity.
  - exists {[ "src" := "outlines"; "mask" := "halos" ]}.
    split; [apply list_elem_of_further, list_elem_of_here|].
    split; [vm_compute; reflexivity|].
    split; [discriminate|]. right. vm_compute. reflexivity.
  - vm_compute. reflexivity.
Defined.

Lemma all_known_no_process_seeded :
  procs (draw_stack (sample_provider masked_stack) (at_zoom 12)
                    seeded_cache).1 = [] ∧
  started (draw_stack (sample_provider masked_stack) (at_zoom 12)
                      seeded_cache).1 = [].
Proof.
  apply (draw_stack_all_known_no_process
           (sample_provider masked_stack) (at_zoom 12) seeded_cache).
  intros layer n Hin [Hn Href].
  apply list_elem_of_singleton in Hin. subst layer.
  destruct Href as [Href | Href]; vm_compute in Href;
    injection Href as <-; vm_compute; eauto.
Defined.

Lemma skips_excluded_zoom_at_5 :
  plan_layer (sample_provider [zoomed_directive]) (at_zoom 5)
             zoomed_directive (enter ∅)
  = (enter ∅, None) ∧
  ∀ pre post,
    plan (sample_provider [zoomed_directive]) (at_zoom 5)
         (pre ++ zoomed_directive :: post) (enter ∅) =
    plan (sample_provider [zoomed_directive]) (at_zoom 5)
         (pre ++ post) (enter ∅).
Proof.
  apply (plan_skips_excluded_zoom
           (sample_provider [zoomed_directive]) (at_zoom 5)
           zoomed_directive "12-18" (enter ∅)).
  - vm_compute. reflexivity.
  - vm_compute. reflexivity.
Defined.

Lemma all_three_raises_alone :
  ∃ e, (draw_stack (sample_provider all_three_stack) (at_zoom 12) ∅).2
       = Raised e ∧
       started (draw_stack (sample_provider all_three_stack)
                           (at_zoom 12) ∅).1 = [] ∧
       ((plan (sample_provider all_three_stack) (at_zoom 12) []
              (enter ∅)).2 = None →
        ∃ s c m,
          ({[ "src" := "X"; "mask" := "Y"; "color" := "#000" ]}
             : directive) !! "src" = Some s ∧
          ({[ "src" := "X"; "mask" := "Y"; "color" := "#000" ]}
             : directive) !! "color" = Some c ∧
          ({[ "src" := "X"; "mask" := "Y"; "color" := "#000" ]}
             : directive) !! "mask" = Some m ∧
          e = KnownUnknown (triple_message s c m)).
Proof.
  apply (draw_stack_all_three_raises
           (sample_provider all_three_stack) (at_zoom 12) ∅ []
           {[ "src" := "X"; "mask" := "Y"; "color" := "#000" ]} []).
  - reflexivity.
  - vm_compute. reflexivity.
  - vm_compute. reflexivity.
Defined.

(** C2 as stated fails: with an unconfigured mask ahead of the directive
    that gives all three, the [KeyError] of the configuration lookup is
    what [draw_stack] raises. *)
Lemma all_three_after_ghost_mask_raises_KeyError :
  (∃ layer, layer ∈ ghost_mask_stack ∧ gives_all_three layer ∧
            zoom_skips (at_zoom 12) layer = inr false) ∧
  (draw_stack (sample_provider ghost_mask_stack) (at_zoom 12) ∅).2
  = Raised (KeyError "ghost") ∧
  ¬ ∃ msg, (draw_stack (sample_provider ghost_mask_stack) (at_zoom 12) ∅).2
           = Raised (KnownUnknown msg).
Proof.
  split; [|split].
  - exists {[ "src" := "base"; "mask" := "halos"; "color" := "#000" ]}.
    split; [apply list_elem_of_further, list_elem_of_here|].
    split; vm_compute; reflexivity.
  - vm_compute. reflexivity.
  - intros [msg Hmsg]. vm_compute in Hmsg. discriminate.
Qed.

Lemma worker_puts_base_tile :
  layer_bitmap "base" "base" (at_zoom 12) []
  = ([{[ "base" := "tile of base" ]}], inr tt).
Proof.
  apply (proj1 (worker_puts_what_is_rendered
                  "base" "base" sample_config (at_zoom 12) 256 [])).
  vm_compute. reflexivity.
Defined.

(** C6 as stated fails: the worker of a layer whose renderer raises puts
    no result on the queue, and the exception leaves the worker. *)
Lemma worker_of_broken_layer_puts_nothing :
  layer_bitmap "hillshading" "broken" (at_zoom 12) []
  = ([], inl (RenderError "renderer failed")) ∧
  length (layer_bitmap "hillshading" "broken" (at_zoom 12) []).1 ≠ 1.
Proof. split; [vm_compute; reflexivity | vm_compute; discriminate]. Qed.

Lemma collect_blocks_on_second_get :
  (collect 2 [{[ "base" := "tile of base" ]}] (∅ : gmap string string)).2
  = None.
Proof.
  apply (proj1 (collect_blocks_iff_result_missing
                  2 [{[ "base" := "tile of base" ]}] ∅
                  (sample_provider hillshaded_stack) (at_zoom 12))).
  simpl. lia.
Defined.

(** C3 as stated fails: of two started workers one never reports, and
    the call stays in its second [get()], the result of the other worker
    merged. *)
Lemma one_silent_worker_blocks_collection :
  length (started (draw_stack (sample_provider hillshaded_stack)
                              (at_zoom 12) ∅).1) = 2 ∧
  (draw_stack (sample_provider hillshaded_stack) (at_zoom 12) ∅).2
  = Blocked ∧
  tiles (draw_stack (sample_provider hillshaded_stack) (at_zoom 12) ∅).1
  = {[ "base" := "tile of base" ]}.
Proof. vm_compute. repeat split. Qed.

Lemma failed_hillshading_blocks :
  (draw_stack (sample_provider hillshaded_stack) (at_zoom 12) ∅).2
  = Blocked ∧
  handoff (draw_stack (sample_provider hillshaded_stack)
                      (at_zoom 12) ∅).1 = None ∧
  joined (draw_stack (sample_provider hillshaded_stack)
                     (at_zoom 12) ∅).1 = [].
Proof.
  apply (draw_stack_failed_job_blocks
           (sample_provider hillshaded_stack) (at_zoom 12) ∅
           hillshading_process (RenderError "renderer failed")).
  - vm_compute. reflexivity.
  - vm_compute. apply list_elem_of_further, list_elem_of_here.
  - vm_compute. reflexivity.
Defined.

(** C7 as stated fails: the one dispatched job fails, and [draw_stack]
    comes back with no error at all: it does not come back. *)
Lemma failed_bitmap_gives_no_error :
  length (started (draw_stack (sample_provider missing_bitmap_stack)
                              (at_zoom 12) ∅).1) = 1 ∧
  (∀ p, p ∈ started (draw_stack (sample_provider missing_bitmap_stack)
                                (at_zoom 12) ∅).1 →
        render p = inl (RenderError "no such file")) ∧
  ¬ ∃ e, (draw_stack (sample_provider missing_bitmap_stack)
                     (at_zoom 12) ∅).2 = Raised e.
Proof.
  split; [vm_compute; reflexivity|]. split.
  - intros p Hin. vm_compute in Hin.
    apply list_elem_of_singleton in Hin. subst p. vm_compute. reflexivity.
  - intros [e He]. vm_compute in He. discriminate.
Qed.

Lemma collect_two_results_either_order :
  collect 2 [{[ "outlines" := "tile of outlines" ]};
             {[ "halos" := "tile of halos" ]}] (∅ : gmap string string) =
  collect 2 [{[ "halos" := "tile of halos" ]};
             {[ "outlines" := "tile of outlines" ]}] ∅.
Proof.
  apply (collect_order_independent
           [("outlines", "tile of outlines"); ("halos", "tile of halos")]
           [("halos", "tile of halos"); ("outlines", "tile of outlines")]
           ∅).
  - simpl. apply NoDup_cons. split.
    + rewrite list_elem_of_singleton. discriminate.
    + apply NoDup_singleton.
  - apply perm_swap.
Defined.

Lemma docs_stack_hands_off_halos :
  ∃ c, handoff (draw_stack (sample_provider docs_stack)
                           (at_zoom 12) ∅).1 = Some c ∧
       is_Some (c !! "halos").
Proof.
  destruct (draw_stack_hands_off_complete_cache
              (sample_provider docs_stack) (at_zoom 12) ∅) as [Hret Hall].
  destruct (Hret "composite of 4") as [c Hc]; [vm_compute; reflexivity|].
  exists c. split; [exact Hc|].
  apply (proj1 (Hall c Hc) {[ "src" := "outlines"; "mask" := "halos" ]}).
  - apply list_elem_of_further, list_elem_of_here.
  - vm_compute. reflexivity.
  - split; [discriminate|]. right. vm_compute. reflexivity.
Defined.

Lemma seeded_outlines_kept :
  tiles (draw_stack (sample_provider docs_stack) (at_zoom 12)
                    seeded_cache).1 !! "outlines" = Some "kept outlines".
Proof.
  apply (proj1 (proj2 (draw_stack_keeps_cache
                         (sample_provider docs_stack) (at_zoom 12)
                         seeded_cache))).
  vm_compute. reflexivity.
Defined.

(** * Further properties at work in the concrete world *)

Lemma hillshading_process_comes_from_reference :
  name hillshading_process ≠ "" ∧
  (∅ : gmap string string) !! name hillshading_process = None ∧
  (∃ layer, layer ∈ stack (sample_provider hillshaded_stack) ∧
            zoom_skips (at_zoom 12) layer = inr false ∧
            refers layer (name hillshading_process)) ∧
  follows_config (sample_provider hillshaded_stack) (at_zoom 12)
                 hillshading_process.
Proof.
  apply (draw_stack_processes_come_from_references
           (sample_provider hillshaded_stack) (at_zoom 12) ∅
           hillshading_process).
  vm_compute. apply list_elem_of_further, list_elem_of_here.
Defined.

Lemma docs_stack_stackLayers_seeded :
  stackLayers (plan_stack (sample_provider docs_stack) (at_zoom 12)
                          seeded_cache).1
  = (map_to_list seeded_cache).*1
    ++ (name <$> procs (plan_stack (sample_provider docs_stack)
                                   (at_zoom 12) seeded_cache).1).
Proof.
  apply (plan_stack_stackLayers
           (sample_provider docs_stack) (at_zoom 12) seeded_cache).
  vm_compute. reflexivity.
Defined.

Lemma ghost_mask_error_is_of_planning :
  ((∃ layer, layer ∈ stack (sample_provider ghost_mask_stack) ∧
             plan_error_of (sample_provider ghost_mask_stack) (at_zoom 12)
                           ∅ layer (KeyError "ghost")) ∧
   started (draw_stack (sample_provider ghost_mask_stack)
                       (at_zoom 12) ∅).1 = []) ∨
  Sandwich_draw_stack (sample_provider ghost_mask_stack) (at_zoom 12)
    (tiles (draw_stack (sample_provider ghost_mask_stack)
                       (at_zoom 12) ∅).1)
  = inl (KeyError "ghost").
Proof.
  apply (draw_stack_raises_only
           (sample_provider ghost_mask_stack) (at_zoom 12) ∅
           (KeyError "ghost")).
  vm_compute. reflexivity.
Defined.

Lemma ghost_mask_raises_KeyError :
  (draw_stack (sample_provider ghost_mask_stack) (at_zoom 12) ∅).2
  = Raised (KeyError "ghost") ∧
  started (draw_stack (sample_provider ghost_mask_stack)
                      (at_zoom 12) ∅).1 = [].
Proof.
  apply (draw_stack_unconfigured_mask_raises
           (sample_provider ghost_mask_stack) (at_zoom 12) ∅ []
           {[ "mask" := "ghost" ]}
           [ {[ "src" := "base"; "mask" := "halos"; "color" := "#000" ]} ]
           (enter ∅) "ghost").
  - reflexivity.
  - reflexivity.
  - vm_compute. reflexivity.
  - unfold gives_all_three. vm_compute. discriminate.
  - vm_compute. reflexivity.
  - discriminate.
  - vm_compute. discriminate.
  - intros Hin. vm_compute in Hin. by apply elem_of_nil in Hin.
  - vm_compute. reflexivity.
Defined.

Lemma docs_stack_joined_and_drained :
  joined (draw_stack (sample_provider docs_stack) (at_zoom 12) ∅).1
  = started (draw_stack (sample_provider docs_stack) (at_zoom 12) ∅).1 ∧
  tileQueue (draw_stack (sample_provider docs_stack) (at_zoom 12) ∅).1
  = [].
Proof.
  apply (proj1 (proj2 (draw_stack_joins_what_it_started
                         (sample_provider docs_stack) (at_zoom 12) ∅))).
  vm_compute. discriminate.
Defined.

Lemma docs_stack_cache_in_creation_order :
  tiles (draw_stack (sample_provider docs_stack) (at_zoom 12) ∅).1
  = merged ∅ (omap report (procs (plan_stack (sample_provider docs_stack)
                                             (at_zoom 12) ∅).1)).
Proof.
  destruct (draw_stack_cache_any_completion_order
              (sample_provider docs_stack) (at_zoom 12) ∅) as [Ht _].
  - vm_compute. reflexivity.
  - exact Ht.
Defined.

Lemma masked_stack_ends_as_compositor :
  handoff (draw_stack (sample_provider masked_stack) (at_zoom 12) ∅).1
  = Some (tiles (draw_stack (sample_provider masked_stack)
                            (at_zoom 12) ∅).1) ∧
  joined (draw_stack (sample_provider masked_stack) (at_zoom 12) ∅).1
  = procs (plan_stack (sample_provider masked_stack) (at_zoom 12) ∅).1 ∧
  (draw_stack (sample_provider masked_stack) (at_zoom 12) ∅).2 =
  match Sandwich_draw_stack (sample_provider masked_stack) (at_zoom 12)
          (tiles (draw_stack (sample_provider masked_stack)
                             (at_zoom 12) ∅).1)
  with
  | inr img => Returned img
  | inl e => Raised e
  end.
Proof.
  apply (draw_stack_ends_as_compositor
           (sample_provider masked_stack) (at_zoom 12) ∅).
  - vm_compute. reflexivity.
  - intros p Hin. vm_compute in Hin.
    apply elem_of_cons in Hin as [-> | Hin];
      [eexists; vm_compute; reflexivity|].
    apply list_elem_of_singleton in Hin. subst p.
    eexists. vm_compute. reflexivity.
Defined.

Lemma blocked_call_keeps_base_tile :
  tiles (draw_stack (sample_provider hillshaded_stack) (at_zoom 12) ∅).1
    !! "base" = Some "tile of base".
Proof.
  destruct (draw_stack_cache_content
              (sample_provider hillshaded_stack) (at_zoom 12) ∅
              "base" "tile of base") as [_ Hfrom].
  - vm_compute. reflexivity.
  - apply Hfrom. right. exists base_process. split.
    + vm_compute. apply list_elem_of_here.
    + split; vm_compute; reflexivity.
Defined.

Lemma base_again_changes_nothing :
  plan_layer (sample_provider hillshaded_stack) (at_zoom 12)
             {[ "src" := "base" ]} hillshaded_planned
  = (hillshaded_planned, None).
Proof.
  apply (plan_layer_again_changes_nothing
           (sample_provider hillshaded_stack) (at_zoom 12)
           {[ "src" := "base" ]} [ {[ "src" := "hillshading" ]} ]
           (enter ∅)
           (plan_layer (sample_provider hillshaded_stack) (at_zoom 12)
                       {[ "src" := "base" ]} (enter ∅)).1
           hillshaded_planned).
  - vm_compute. reflexivity.
  - vm_compute. reflexivity.
Defined.

Lemma docs_stack_processes_are_missing_names :
  NoDup (name <$> procs (plan_stack (sample_provider docs_stack)
                                    (at_zoom 12) seeded_cache).1) ∧
  ("base" ∈ name <$> procs (plan_stack (sample_provider docs_stack)
                                       (at_zoom 12) seeded_cache).1 ↔
   seeded_cache !! "base" = None ∧
   ∃ layer, layer ∈ stack (sample_provider docs_stack) ∧
            zoom_skips (at_zoom 12) layer = inr false ∧
            refers layer "base").
Proof.
  apply (plan_stack_processes_are_missing_names
           (sample_provider docs_stack) (at_zoom 12) seeded_cache "base").
  vm_compute. reflexivity.
Defined.
